(** * pdf-translate: the engine supervisor and the job event relay

    A shallow embedding of [apps/electron/main/index.js] (the Electron
    main process) and of the notification handlers of
    [src/renderer/App.tsx].

    The main process is single-threaded and event driven.  Synchronous
    functions are embedded as functions on the module-level variables
    they mutate; an [async] function is cut at its [await]s into the
    handlers the event loop runs, and what the outer world answers (a
    health probe, a spawned process, an HTTP response, a signal that can
    not be delivered) is an explicit input of the handler. *)

From Stdlib Require Import ZArith Lia Ascii.
From stdpp Require Import base option list strings pretty.

Open Scope string_scope.
Open Scope list_scope.
Open Scope Z_scope.

#[local] Set Warnings "-register-all".

(** ** Completions

    A JavaScript statement completes normally or throws; [Throw] carries
    [err.message]. *)

Inductive Completion (A : Type) : Type :=
| Normal (a : A)
| Throw (message : string).
Arguments Normal {A} a.
Arguments Throw {A} message.

(** * The lifecycle supervisor *)

Module Supervisor.

(** [engineServerProcess]: the handle returned by [spawn].  [handle]
    numbers the processes in the order in which they were spawned; [pid]
    is [None] when the operating system could not start the command
    ([child.pid] is then [undefined]). *)
Record ChildProcess := { handle : nat; pid : option Z }.

(** The module-level variables of index.js that the supervisor owns.
    [engineServerReady] holds a promise; promises are named by the number
    of the start attempt that created them. *)
Record State := {
  engineServerPort : option Z;
  engineServerProcess : option ChildProcess;
  engineServerReady : option nat;
  isStoppingEngine : bool
}.

Definition set_port (p : option Z) (s : State) : State :=
  {| engineServerPort := p; engineServerProcess := engineServerProcess s;
     engineServerReady := engineServerReady s; isStoppingEngine := isStoppingEngine s |}.
Definition set_process (p : option ChildProcess) (s : State) : State :=
  {| engineServerPort := engineServerPort s; engineServerProcess := p;
     engineServerReady := engineServerReady s; isStoppingEngine := isStoppingEngine s |}.
Definition set_ready (r : option nat) (s : State) : State :=
  {| engineServerPort := engineServerPort s; engineServerProcess := engineServerProcess s;
     engineServerReady := r; isStoppingEngine := isStoppingEngine s |}.
Definition set_stopping (b : bool) (s : State) : State :=
  {| engineServerPort := engineServerPort s; engineServerProcess := engineServerProcess s;
     engineServerReady := engineServerReady s; isStoppingEngine := b |}.

(** The state at program start: all three variables are [null]. *)
Definition idle : State :=
  {| engineServerPort := None; engineServerProcess := None;
     engineServerReady := None; isStoppingEngine := false |}.

Inductive Signal := SIGTERM | SIGKILL.

(** What the supervisor does to the outer world.  A signal is aimed at a
    process ([ToPid]) or at a process group ([ToGroup], the negated pid of
    the source). *)
Inductive Target := ToPid (p : option Z) | ToGroup (p : option Z).

Inductive Effect :=
| WriteMainLog (level : string)
| Taskkill (p : option Z)
| ProcessKill (t : Target) (sig : Signal)
| SetTimeout (ms : Z) (p : option Z)
| Spawn (child : ChildProcess).

(** ** A state and exception monad for the synchronous code *)

Definition M (A : Type) : Type := State → Completion A * State * list Effect.

#[local] Instance M_ret : MRet M := λ A a s, (Normal a, s, []).
#[local] Instance M_bind : MBind M := λ A B f m s,
  match m s with
  | (Normal a, s1, e1) =>
      match f a s1 with (c, s2, e2) => (c, s2, e1 ++ e2) end
  | (Throw msg, s1, e1) => (Throw msg, s1, e1)
  end.

Definition get : M State := λ s, (Normal s, s, []).
Definition modify (f : State → State) : M unit := λ s, (Normal tt, f s, []).
Definition emit (e : Effect) : M unit := λ s, (Normal tt, s, [e]).
Definition throw {A} (msg : string) : M A := λ s, (Throw msg, s, []).

(** [try { body } catch (err) { handler err }] *)
Definition try_catch {A} (body : M A) (handler : string → M A) : M A := λ s,
  match body s with
  | (Normal a, s1, e1) => (Normal a, s1, e1)
  | (Throw msg, s1, e1) =>
      match handler msg s1 with (c, s2, e2) => (c, s2, e1 ++ e2) end
  end.

(** [try { body } finally { final }]: [final] runs however [body]
    completes; when [final] completes normally the completion of [body]
    stands. *)
Definition try_finally {A} (body : M A) (final : M unit) : M A := λ s,
  match body s with
  | (c, s1, e1) =>
      match final s1 with
      | (Normal _, s2, e2) => (c, s2, e1 ++ e2)
      | (Throw msg, s2, e2) => (Throw msg, s2, e1 ++ e2)
      end
  end.

Section Platform.

(** [process.platform === 'win32'] *)
Variable win32 : bool.

(** Whether [process.kill(target, sig)] throws (no such process or group,
    no permission, a pid that is not a number); the answer is the
    operating system's. *)
Variable kill_throws : Target → Signal → option string.

Definition writeMainLog (level : string) : M unit := emit (WriteMainLog level).

Definition process_kill (t : Target) (sig : Signal) : M unit :=
  emit (ProcessKill t sig);;
  match kill_throws t sig with
  | Some msg => throw msg
  | None => mret tt
  end.

(** The callback that [stopEngineServer] hands to [setTimeout]: SIGKILL to
    the group, else to the process, else nothing. *)
Definition killTimer (p : option Z) : M unit :=
  try_catch (process_kill (ToGroup p) SIGKILL)
    (λ _, try_catch (process_kill (ToPid p) SIGKILL) (λ _, mret tt)).

(** index.js, [stopEngineServer]. *)
Definition stopEngineServer : M unit :=
  s ← get;
  match engineServerProcess s with
  | None => mret tt
  | Some child =>
      if isStoppingEngine s then mret tt else
      modify (set_stopping true);;
      let pid := pid child in
      writeMainLog "info";;
      try_finally
        (try_catch
           (if win32 then emit (Taskkill pid)
            else
              try_catch (process_kill (ToGroup pid) SIGTERM)
                        (λ _, process_kill (ToPid pid) SIGTERM);;
              emit (SetTimeout 1500 pid))
           (λ _, writeMainLog "error"))
        (modify (set_stopping false);;
         modify (set_process None);;
         modify (set_port None);;
         modify (set_ready None))
  end.

(** The listener of the child's ['close'] event, registered by
    [startEngineServer]. *)
Definition onClose : M unit :=
  writeMainLog "info";;
  modify (set_port None);;
  modify (set_ready None);;
  modify (set_process None).

(** ** Start attempts

    [startEngineServer] is an [async] function.  Its synchronous prefix
    runs when it is called; the body of the inner [async] arrow function
    continues when the first health probe settles and again when
    [waitForEngineHealthy] settles.  [Phase] says where an attempt is, or
    how its promise settled. *)

Inductive Phase :=
| ProbingBefore
| Polling
| Resolved (port : Z)
| Rejected (message : string).

Definition pending (ph : Phase) : bool :=
  match ph with
  | ProbingBefore | Polling => true
  | Resolved _ | Rejected _ => false
  end.

(** What [resolveEngineServerCommand] and [spawn] give: no usable command
    (the resolution throws), or a child process. *)
Inductive Launch := NoCommand | Started (pid : option Z).

(** Where the body of the inner arrow function stands at the end of a
    segment: suspended at [await waitForEngineHealthy(...)], or returned. *)
Inductive Next := AwaitPoll | Return (port : Z).

(** [Number(process.env.PDF2ZH_ENGINE_PORT || 18080)] *)
Variable ENGINE_PORT : Z.

(** The body from the first [await] to the second: [healthyBeforeStart]
    is what [checkEngineHealth] answered, [fresh] the number of the next
    child.  The messages of the two errors of the body are kept up to the
    text that the source interpolates (the commands tried, the log
    directory). *)
Definition afterFirstProbe (healthyBeforeStart : bool) (launch : Launch) (fresh : nat)
  : M Next :=
  if healthyBeforeStart then
    modify (set_port (Some ENGINE_PORT));;
    writeMainLog "info";;
    mret (Return ENGINE_PORT)
  else
    match launch with
    | NoCommand => throw "未找到可用的 pdf2zh 服务命令"
    | Started p =>
        writeMainLog "info";;
        let child := {| handle := fresh; pid := p |} in
        emit (Spawn child);;
        modify (set_process (Some child));;
        mret AwaitPoll
    end.

(** The body after [await waitForEngineHealthy(...)]. *)
Definition afterPoll (healthyAfterStart : bool) : M Next :=
  if negb healthyAfterStart then
    stopEngineServer;;
    throw "引擎服务健康检查超时（10s）"
  else
    modify (set_port (Some ENGINE_PORT));;
    writeMainLog "info";;
    mret (Return ENGINE_PORT).

(** ** The event loop around the supervisor *)

Record World := {
  vars : State;
  attempts : list Phase;
  (** who called [startEngineServer], with the attempt whose promise the
      call was given *)
  callers : list (nat * nat);
  children : list ChildProcess;
  closed : list nat;
  log : list Effect
}.

Definition init : World :=
  {| vars := idle; attempts := []; callers := []; children := [];
     closed := []; log := [] |}.

Definition spawned (es : list Effect) : list ChildProcess :=
  omap (λ e, match e with Spawn c => Some c | _ => None end) es.

(** Run a synchronous piece of code in a world. *)
Definition exec {A} (m : M A) (w : World) : Completion A * World :=
  match m (vars w) with
  | (c, s, es) =>
      (c, {| vars := s; attempts := attempts w; callers := callers w;
             children := children w ++ spawned es; closed := closed w;
             log := log w ++ es |})
  end.

Definition with_attempts (f : list Phase → list Phase) (w : World) : World :=
  {| vars := vars w; attempts := f (attempts w); callers := callers w;
     children := children w; closed := closed w; log := log w |}.

(** The end of a segment of attempt [a].  A throw rejects the promise of
    the attempt; the call that created the attempt then runs its
    [catch (err) { engineServerReady = null; throw err; }]. *)
Definition settle (a : nat) (r : Completion Next * World) : World :=
  match r with
  | (Normal AwaitPoll, w) => with_attempts <[a := Polling]> w
  | (Normal (Return p), w) => with_attempts <[a := Resolved p]> w
  | (Throw msg, w) =>
      snd (exec (modify (set_ready None)) (with_attempts <[a := Rejected msg]> w))
  end.

(** [startEngineServer()] up to its [await]: a call made while
    [engineServerReady] is set is given that promise; otherwise the call
    creates an attempt, stores its promise and issues the first probe. *)
Definition startEngineServer (caller : nat) (w : World) : World :=
  match engineServerReady (vars w) with
  | Some a =>
      {| vars := vars w; attempts := attempts w;
         callers := callers w ++ [(caller, a)];
         children := children w; closed := closed w; log := log w |}
  | None =>
      let a := length (attempts w) in
      {| vars := set_ready (Some a) (vars w);
         attempts := attempts w ++ [ProbingBefore];
         callers := callers w ++ [(caller, a)];
         children := children w; closed := closed w; log := log w |}
  end.

Inductive Event :=
| CallStart (caller : nat)
| FirstProbe (a : nat) (healthy : bool) (launch : Launch)
| PollSettled (a : nat) (healthy : bool)
| ProcessClose (h : nat)
| CallStop.

(** One turn of the event loop; [None] when the event cannot happen in
    this world (a probe of an attempt that is not waiting for it, the
    close of a process that was never spawned or has closed already). *)
Definition step (w : World) (e : Event) : option World :=
  match e with
  | CallStart c => Some (startEngineServer c w)
  | FirstProbe a healthy launch =>
      match attempts w !! a with
      | Some ProbingBefore =>
          Some (settle a (exec (afterFirstProbe healthy launch (length (children w))) w))
      | _ => None
      end
  | PollSettled a healthy =>
      match attempts w !! a with
      | Some Polling => Some (settle a (exec (afterPoll healthy) w))
      | _ => None
      end
  | ProcessClose h =>
      if decide (h < length (children w))%nat then
        if decide (h ∈ closed w) then None
        else
          let w' := snd (exec onClose w) in
          Some {| vars := vars w'; attempts := attempts w'; callers := callers w';
                  children := children w'; closed := h :: closed w'; log := log w' |}
      else None
  | CallStop => Some (snd (exec stopEngineServer w))
  end.

Fixpoint run (w : World) (tr : list Event) : option World :=
  match tr with
  | [] => Some w
  | e :: tr' =>
      match step w e with
      | Some w' => run w' tr'
      | None => None
      end
  end.

(** The outcome a call of [startEngineServer] observes: that of the
    promise it was given, once settled. *)
Definition outcome (w : World) (a : nat) : option (Completion Z) :=
  match attempts w !! a with
  | Some (Resolved p) => Some (Normal p)
  | Some (Rejected msg) => Some (Throw msg)
  | _ => None
  end.

(** ** Windows of concurrent calls *)

Definition is_call (e : Event) : bool :=
  match e with CallStart _ => true | _ => false end.

(** No start attempt has settled yet. *)
Definition unsettled (w : World) : bool := forallb pending (attempts w).

(** The trace can run from [w], and each of its calls of
    [startEngineServer] is issued while no attempt has settled. *)
Fixpoint concurrent_calls (w : World) (tr : list Event) : bool :=
  match tr with
  | [] => true
  | e :: tr' =>
      implb (is_call e) (unsettled w) &&
      match step w e with
      | Some w' => concurrent_calls w' tr'
      | None => false
      end
  end.

(** The worker neither exits nor is stopped from outside during the trace. *)
Definition is_exit (e : Event) : bool :=
  match e with ProcessClose _ | CallStop => true | _ => false end.

Definition no_exit (tr : list Event) : bool := forallb (λ e, negb (is_exit e)) tr.

(** Single flight, for one trace from program start: at most one process
    is spawned and any two calls that have an outcome have the same one. *)
Definition single_flight (tr : list Event) : Prop :=
  ∀ w, concurrent_calls init tr = true → run init tr = Some w →
    (length (children w) ≤ 1)%nat ∧
    ∀ c1 a1 c2 a2 o1 o2,
      (c1, a1) ∈ callers w → (c2, a2) ∈ callers w →
      outcome w a1 = Some o1 → outcome w a2 = Some o2 → o1 = o2.

(** All three owned variables are [null]. *)
Definition cleared (s : State) : Prop :=
  engineServerPort s = None ∧ engineServerProcess s = None ∧
  engineServerReady s = None.

(** The guard of [stopEngineServer]: nothing to stop, or a stop under way. *)
Definition guarded (s : State) : Prop :=
  engineServerProcess s = None ∨ isStoppingEngine s = true.

(** The shape of a world in which single flight has held so far: at most
    one attempt (number 0) that every call was given, at most one child,
    none before the first probe has answered, and the promise of a pending
    attempt still stored in [engineServerReady]. *)
Definition single_attempt (w : World) : Prop :=
  (length (children w) ≤ 1)%nat ∧
  (∀ c a, (c, a) ∈ callers w → a = 0%nat) ∧
  match attempts w with
  | [] => engineServerReady (vars w) = None ∧ children w = []
  | [ph] =>
      (pending ph = true → engineServerReady (vars w) = Some 0%nat) ∧
      (ph = ProbingBefore → children w = [])
  | _ => False
  end.

(** What holds of every world that the event loop reaches: the cached
    port is the engine port, the owned process is one that was spawned,
    children are numbered in the order of their spawning, the stored
    promise and the promise of every call exist, and no stop is left
    under way. *)
Definition consistent (w : World) : Prop :=
  (engineServerPort (vars w) = None ∨ engineServerPort (vars w) = Some ENGINE_PORT) ∧
  (∀ c, engineServerProcess (vars w) = Some c → children w !! handle c = Some c) ∧
  (∀ i c, children w !! i = Some c → handle c = i) ∧
  (∀ a, engineServerReady (vars w) = Some a → (a < length (attempts w))%nat) ∧
  (∀ c a, (c, a) ∈ callers w → (a < length (attempts w))%nat) ∧
  isStoppingEngine (vars w) = false.

(** The attempts that have got past their first probe. *)
Definition probed (ph : Phase) : bool :=
  match ph with ProbingBefore => false | _ => true end.

End Platform.

(** A world in which the worker of attempt 0 runs and is healthy. *)
Definition running_world : World :=
  {| vars := {| engineServerPort := Some 18080;
                engineServerProcess := Some {| handle := 0; pid := Some 4001 |};
                engineServerReady := Some 0%nat; isStoppingEngine := false |};
     attempts := [Resolved 18080]; callers := [(0%nat, 0%nat)];
     children := [{| handle := 0; pid := Some 4001 |}]; closed := []; log := [] |}.

(** The worker of the first attempt exits while that attempt still polls,
    and a second call arrives. *)
Definition exit_while_starting : list Event :=
  [CallStart 0; FirstProbe 0 false (Started (Some 4001)); ProcessClose 0;
   CallStart 1; FirstProbe 1 false (Started (Some 4002))].

(** The same, continued: the second worker becomes healthy just before
    the first attempt runs into its deadline. *)
Definition exit_then_recover : list Event :=
  exit_while_starting ++ [PollSettled 1 true; PollSettled 0 false].

(** Two calls, one attempt, the worker becomes healthy. *)
Definition two_calls : list Event :=
  [CallStart 0; CallStart 1; FirstProbe 0 false (Started (Some 4001));
   CallStart 2; PollSettled 0 true].

End Supervisor.

(** * JavaScript values *)

Module JS.

(** The values that cross the HTTP and IPC boundaries: what [JSON.parse]
    returns, and [undefined] for a property that is absent.  A number is
    kept as the decimal [mantissa * 10 ^ exponent] of its literal. *)
Inductive value :=
| VUndefined
| VNull
| VBool (b : bool)
| VNum (mantissa exponent : Z)
| VStr (s : string)
| VArr (items : list value)
| VObj (props : list (string * value)).

(** [ToBoolean] *)
Definition truthy (v : value) : bool :=
  match v with
  | VUndefined | VNull => false
  | VBool b => b
  | VNum m _ => negb (m =? 0)%Z
  | VStr s => negb (String.eqb s "")
  | VArr _ | VObj _ => true
  end.

Definition nullish (v : value) : bool :=
  match v with VUndefined | VNull => true | _ => false end.

Fixpoint lookup_prop (k : string) (props : list (string * value)) : value :=
  match props with
  | [] => VUndefined
  | (k', v) :: rest => if String.eqb k k' then v else lookup_prop k rest
  end.

(** [v.k] for a [v] that is not nullish and a name [k] that no built-in
    prototype defines (the program reads [type], [ok], [error], [detail],
    [jobId], [status] and [pid]): primitives and arrays answer
    [undefined]. *)
Definition prop (v : value) (k : string) : value :=
  match v with
  | VObj props => lookup_prop k props
  | _ => VUndefined
  end.

(** [v?.k] *)
Definition opt_prop (v : value) (k : string) : value :=
  if nullish v then VUndefined else prop v k.

(** [v.k], which throws a TypeError on [null] and [undefined]. *)
Definition member (v : value) (k : string) : Completion value :=
  if nullish v then Throw "TypeError" else Normal (prop v k).

(** [v === 'text'] *)
Definition is_str (v : value) (text : string) : bool :=
  match v with VStr s => String.eqb s text | _ => false end.

(** [typeof v === 'number'] *)
Definition is_number (v : value) : bool :=
  match v with VNum _ _ => true | _ => false end.

(** [a || b] *)
Definition or_else (a b : value) : value := if truthy a then a else b.

(** Assignment of a property: an existing key keeps its place. *)
Fixpoint obj_set (k : string) (v : value) (props : list (string * value))
  : list (string * value) :=
  match props with
  | [] => [(k, v)]
  | (k', v') :: rest =>
      if String.eqb k k' then (k, v) :: rest else (k', v') :: obj_set k v rest
  end.

(** [{ jobId, ...payload }] for an object [payload]. *)
Definition spread_onto (base : list (string * value)) (payload : value) : value :=
  match payload with
  | VObj props => VObj (fold_left (λ acc kv, obj_set kv.1 kv.2 acc) props base)
  | _ => VObj base
  end.

(** ** Text *)

Definition dquote : ascii := "034"%char.
Definition newline : ascii := "010"%char.

Definition quoted (s : string) : string :=
  String dquote (s ++ String dquote "")%string.

(** [s.indexOf(c)] for a single character: [-1] when absent. *)
Fixpoint indexOf (c : ascii) (s : string) : Z :=
  match s with
  | EmptyString => -1
  | String c' s' =>
      if Ascii.eqb c c' then 0
      else let i := indexOf c s' in if i <? 0 then -1 else i + 1
  end.

(** [s.slice(from)] and [s.slice(0, to)] for indices within the string. *)
Fixpoint slice_from (from : nat) (s : string) : string :=
  match from, s with
  | O, _ => s
  | S n, String _ s' => slice_from n s'
  | S _, EmptyString => EmptyString
  end.

Fixpoint slice_to (to : nat) (s : string) : string :=
  match to, s with
  | S n, String c s' => String c (slice_to n s')
  | _, _ => EmptyString
  end.

Definition startsWith (s pre : string) : bool := String.prefix pre s.

(** The white space and line terminators that [trim] removes, in the
    UTF-8 encoding in which text is kept: U+0009 to U+000D, U+0020,
    U+00A0, U+1680, U+2000 to U+200A, U+2028, U+2029, U+202F, U+205F,
    U+3000 and U+FEFF. *)
Definition utf8 (codes : list nat) : string :=
  fold_right (λ n acc, String (ascii_of_nat n) acc) EmptyString codes.

Definition whitespace : list string :=
  map utf8
    ([[9]; [10]; [11]; [12]; [13]; [32]; [194; 160]; [225; 154; 128]] ++
     map (λ n, [226; 128; n]) [128; 129; 130; 131; 132; 133; 134; 135; 136; 137; 138] ++
     [[226; 128; 168]; [226; 128; 169]; [226; 128; 175]; [226; 129; 159];
      [227; 128; 128]; [239; 187; 191]])%nat.

Definition string_rev (s : string) : string :=
  String.string_of_list_ascii (rev (String.list_ascii_of_string s)).

(** The first white space character that [s] starts with, if any. *)
Definition leading (tokens : list string) (s : string) : option string :=
  find (λ tok, String.prefix tok s) tokens.

Fixpoint trim_with (tokens : list string) (fuel : nat) (s : string) : string :=
  match fuel with
  | O => s
  | S fuel' =>
      match leading tokens s with
      | Some tok => trim_with tokens fuel' (slice_from (String.length tok) s)
      | None => s
      end
  end.

Definition trimStart (s : string) : string :=
  trim_with whitespace (String.length s) s.

Definition trimEnd (s : string) : string :=
  string_rev (trim_with (map string_rev whitespace) (String.length s) (string_rev s)).

Definition trim (s : string) : string := trimEnd (trimStart s).

(** ** A reference [JSON.parse]

    [JSON.parse] is a built-in; the relay below takes it as a parameter.
    This parser covers the texts of the worker protocol: objects, arrays,
    strings with the one-letter escapes, decimal numbers and the three
    literals.  [None] stands for a SyntaxError; a [\u] escape is outside
    the fragment and is refused too. *)

Definition is_ws (c : ascii) : bool :=
  match c with
  | " "%char | "009"%char | "010"%char | "013"%char => true
  | _ => false
  end.

Fixpoint skip_ws (s : string) : string :=
  match s with
  | String c s' => if is_ws c then skip_ws s' else s
  | EmptyString => EmptyString
  end.

Definition digit (c : ascii) : option Z :=
  let n := Z.of_nat (nat_of_ascii c) in
  if (48 <=? n) && (n <=? 57) then Some (n - 48) else None.

(** A run of digits: its value after [acc], how many were read, the rest. *)
Fixpoint digits (acc count : Z) (s : string) : Z * Z * string :=
  match s with
  | String c s' =>
      match digit c with
      | Some d => digits (10 * acc + d) (count + 1) s'
      | None => (acc, count, s)
      end
  | EmptyString => (acc, count, s)
  end.

Definition parse_exponent (s : string) : option (Z * string) :=
  match s with
  | String c r =>
      if Ascii.eqb c "e" || Ascii.eqb c "E" then
        let '(sign, r1) :=
          match r with
          | String "-" r' => (-1, r')
          | String "+" r' => (1, r')
          | _ => (1, r)
          end in
        match digits 0 0 r1 with
        | (e, n, r2) => if 0 <? n then Some (sign * e, r2) else None
        end
      else Some (0, s)
  | EmptyString => Some (0, s)
  end.

Definition parse_number (s : string) : option (value * string) :=
  let '(sign, s1) := match s with String "-" r => (-1, r) | _ => (1, s) end in
  match digits 0 0 s1 with
  | (int, n, r) =>
      if (n =? 0)%Z || ((1 <? n) && String.prefix "0" s1) then None
      else
        let frac :=
          match r with
          | String "." r1 =>
              match digits int 0 r1 with
              | (m, n2, r2) => if 0 <? n2 then Some (m, - n2, r2) else None
              end
          | _ => Some (int, 0, r)
          end in
        match frac with
        | Some (m, e, r2) =>
            match parse_exponent r2 with
            | Some (e', r3) => Some (VNum (sign * m) (e + e'), r3)
            | None => None
            end
        | None => None
        end
  end.

Definition unescape (c : ascii) : option ascii :=
  if Ascii.eqb c dquote then Some dquote
  else if Ascii.eqb c "\" then Some "\"%char
  else if Ascii.eqb c "/" then Some "/"%char
  else if Ascii.eqb c "b" then Some "008"%char
  else if Ascii.eqb c "f" then Some "012"%char
  else if Ascii.eqb c "n" then Some "010"%char
  else if Ascii.eqb c "r" then Some "013"%char
  else if Ascii.eqb c "t" then Some "009"%char
  else None.

(** The characters of a string literal, after its opening quote. *)
Fixpoint parse_string_body (s : string) : option (string * string) :=
  match s with
  | EmptyString => None
  | String c r =>
      if Ascii.eqb c dquote then Some (EmptyString, r)
      else if Ascii.eqb c "\" then
        match r with
        | String e r' =>
            match unescape e, parse_string_body r' with
            | Some c', Some (str, rest) => Some (String c' str, rest)
            | _, _ => None
            end
        | EmptyString => None
        end
      else if (nat_of_ascii c <? 32)%nat then None
      else
        match parse_string_body r with
        | Some (str, rest) => Some (String c str, rest)
        | None => None
        end
  end.

Definition parse_literal (s : string) : option (value * string) :=
  if String.prefix "true" s then Some (VBool true, slice_from 4 s)
  else if String.prefix "false" s then Some (VBool false, slice_from 5 s)
  else if String.prefix "null" s then Some (VNull, slice_from 4 s)
  else parse_number s.

Fixpoint parse_value (fuel : nat) (s : string) : option (value * string) :=
  match fuel with
  | O => None
  | S fuel' =>
      match skip_ws s with
      | EmptyString => None
      | String c r as s1 =>
          if Ascii.eqb c "{" then
            match skip_ws r with
            | String "}" r' => Some (VObj [], r')
            | r1 => parse_members fuel' [] r1
            end
          else if Ascii.eqb c "[" then
            match skip_ws r with
            | String "]" r' => Some (VArr [], r')
            | r1 => parse_elements fuel' [] r1
            end
          else if Ascii.eqb c dquote then
            match parse_string_body r with
            | Some (str, rest) => Some (VStr str, rest)
            | None => None
            end
          else parse_literal s1
      end
  end
with parse_members (fuel : nat) (acc : list (string * value)) (s : string)
  : option (value * string) :=
  match fuel with
  | O => None
  | S fuel' =>
      match skip_ws s with
      | String c r =>
          if Ascii.eqb c dquote then
            match parse_string_body r with
            | Some (k, r1) =>
                match skip_ws r1 with
                | String ":" r2 =>
                    match parse_value fuel' r2 with
                    | Some (v, r3) =>
                        match skip_ws r3 with
                        | String "," r4 => parse_members fuel' (obj_set k v acc) r4
                        | String "}" r4 => Some (VObj (obj_set k v acc), r4)
                        | _ => None
                        end
                    | None => None
                    end
                | _ => None
                end
            | None => None
            end
          else None
      | EmptyString => None
      end
  end
with parse_elements (fuel : nat) (acc : list value) (s : string)
  : option (value * string) :=
  match fuel with
  | O => None
  | S fuel' =>
      match parse_value fuel' s with
      | Some (v, r) =>
          match skip_ws r with
          | String "," r1 => parse_elements fuel' (acc ++ [v]) r1
          | String "]" r1 => Some (VArr (acc ++ [v]), r1)
          | _ => None
          end
      | None => None
      end
  end.

Definition JSON_parse (text : string) : option value :=
  match parse_value (S (String.length text)) text with
  | Some (v, rest) =>
      match skip_ws rest with
      | EmptyString => Some v
      | _ => None
      end
  | None => None
  end.

End JS.

(** * The health prober, on a clock *)

Module HealthPoll.
Import JS.

Definition HEALTH_CHECK_TIMEOUT_MS : Z := 300.
Definition HEALTH_POLL_INTERVAL_MS : Z := 200.
Definition HEALTH_POLL_TOTAL_MS : Z := 10000.

(** The health endpoint, as seen by a request sent at time [now] (in
    milliseconds, as [Date.now()] counts them): it never answers, or after
    [delay] it answers with [response.ok] and the parsed body, or the
    request or the parsing of the body fails. *)
Definition Endpoint : Type := Z → option (Z * Completion (bool * value)).

(** An endpoint that never responds. *)
Definition silent : Endpoint := λ _, None.

(** An endpoint that never responds within the timeout of a probe: it
    stays silent, or whatever it sends comes when the probe has been
    aborted. *)
Definition unresponsive (endpoint : Endpoint) : Prop :=
  ∀ now, match endpoint now with
         | Some (delay, _) => HEALTH_CHECK_TIMEOUT_MS ≤ delay
         | None => True
         end.

(** Time does not run backwards: what an endpoint sends comes no earlier
    than the request. *)
Definition punctual (endpoint : Endpoint) : Prop :=
  ∀ now, match endpoint now with
         | Some (delay, _) => 0 ≤ delay
         | None => True
         end.

(** An endpoint that comes up at time [up]: silent before, and from then
    on a healthy worker that answers within [delay]. *)
Definition comes_up (up delay : Z) : Endpoint :=
  λ now, if now <? up then None
         else Some (delay, Normal (true, VObj [("status", VStr "ok"); ("pid", VNum 123 0)])).

(** An endpoint that answers every request after [delay] with the body of
    a healthy worker. *)
Definition healthy_after (delay : Z) : Endpoint :=
  λ _, Some (delay, Normal (true, VObj [("status", VStr "ok"); ("pid", VNum 123 0)])).

Definition isEngineHealthyPayload (payload : value) : bool :=
  truthy payload && is_str (prop payload "status") "ok" && is_number (prop payload "pid").

(** [fetchJsonWithTimeout(url, timeoutMs)] called at [now]: how it
    completes, and when.  The abort timer fires [timeoutMs] after the
    call and makes the pending request throw. *)
Definition fetchJsonWithTimeout (endpoint : Endpoint) (timeoutMs now : Z)
  : Completion (bool * value) * Z :=
  match endpoint now with
  | Some (delay, r) =>
      if delay <? timeoutMs then (r, now + delay)
      else (Throw "This operation was aborted", now + timeoutMs)
  | None => (Throw "This operation was aborted", now + timeoutMs)
  end.

(** [checkEngineHealth(port, timeoutMs)] called at [now]. *)
Definition checkEngineHealth (endpoint : Endpoint) (timeoutMs now : Z) : bool * Z :=
  match fetchJsonWithTimeout endpoint timeoutMs now with
  | (Normal (ok, payload), t) => (ok && isEngineHealthyPayload payload, t)
  | (Throw _, t) => (false, t)
  end.

(** The [while] loop of [waitForEngineHealthy], entered at [now]; [fuel]
    bounds the number of times its condition is evaluated. *)
Fixpoint pollLoop (fuel : nat) (endpoint : Endpoint) (deadline now : Z)
  : option (bool * Z) :=
  match fuel with
  | O => None
  | S fuel' =>
      if now <? deadline then
        match checkEngineHealth endpoint HEALTH_CHECK_TIMEOUT_MS now with
        | (true, t) => Some (true, t)
        | (false, t) => pollLoop fuel' endpoint deadline (t + HEALTH_POLL_INTERVAL_MS)
        end
      else Some (false, now)
  end.

(** [waitForEngineHealthy(port, timeoutMs)] called at [now]: its answer
    and the time at which it resolves. *)
Definition waitForEngineHealthy (fuel : nat) (endpoint : Endpoint) (timeoutMs now : Z)
  : option (bool * Z) :=
  let deadline := now + timeoutMs in
  pollLoop fuel endpoint deadline now.

(** The events that one start attempt, created at [now], puts on the
    event loop, with their times: the answer of the first probe and, when
    a worker was spawned, the answer of the poll. *)
Definition attemptEvents (fuel : nat) (endpoint : Endpoint)
  (launch : Supervisor.Launch) (a : nat) (now : Z)
  : option (list (Z * Supervisor.Event)) :=
  match checkEngineHealth endpoint HEALTH_CHECK_TIMEOUT_MS now with
  | (true, t1) => Some [(t1, Supervisor.FirstProbe a true launch)]
  | (false, t1) =>
      match launch with
      | Supervisor.NoCommand => Some [(t1, Supervisor.FirstProbe a false launch)]
      | Supervisor.Started _ =>
          match waitForEngineHealthy fuel endpoint HEALTH_POLL_TOTAL_MS t1 with
          | Some (healthy, t2) =>
              Some [(t1, Supervisor.FirstProbe a false launch);
                    (t2, Supervisor.PollSettled a healthy)]
          | None => None
          end
      end
  end.

End HealthPoll.

(** * The job event relay *)

Module Relay.
Import JS.

(** What the relay does: a notification to the renderer
    ([mainWindow.webContents.send]), or the start of a result fetch. *)
Inductive Action :=
| Send (channel : string) (data : value)
| FetchResult (jobId : value).

Section Parser.

(** [JSON.parse]; [None] when it throws. *)
Variable JSON_parse : string → option value.

(** The body of the [try] block of the ['data'] listener, after
    [JSON.parse]; [payload.type] throws for [null], which the [catch]
    swallows. *)
Definition onPayload (jobId payload : value) : list Action :=
  match member payload "type" with
  | Throw _ => []
  | Normal type =>
      (if is_str type "progress"
       then [Send "pdf2zh:progress" (spread_onto [("jobId", jobId)] payload)] else []) ++
      (if is_str type "done" then [FetchResult jobId] else []) ++
      (if is_str type "error"
       then [Send "pdf2zh:error" (spread_onto [("jobId", jobId)] payload)] else [])
  end.

(** One pass of the body of the [while] loop, for the line cut from the
    buffer. *)
Definition onLine (jobId : value) (rawLine : string) : list Action :=
  let line := trim rawLine in
  if negb (startsWith line "data:") then [] else
  let jsonStr := trim (slice_from 5 line) in
  if String.eqb jsonStr "" then [] else
  match JSON_parse jsonStr with
  | Some payload => onPayload jobId payload
  | None => []
  end.

(** The [while] loop of the ['data'] listener: the buffer that is left,
    and what was done. *)
Fixpoint drain (fuel : nat) (jobId : value) (buffer : string) : string * list Action :=
  match fuel with
  | O => (buffer, [])
  | S fuel' =>
      let index := indexOf newline buffer in
      if 0 <=? index then
        let line := slice_to (Z.to_nat index) buffer in
        let buffer := slice_from (Z.to_nat (index + 1)) buffer in
        let '(rest, actions) := drain fuel' jobId buffer in
        (rest, onLine jobId line ++ actions)
      else (buffer, [])
  end.

(** [chunk.toString()].  Text is kept in its UTF-8 encoding, so that
    decoding a chunk leaves its bytes as they are; this is what Node does
    for a chunk that does not cut a multi-byte character. *)
Definition toString (chunk : list Byte.byte) : string :=
  String.string_of_list_byte chunk.

(** The ['data'] listener of the response: each pass of the loop removes
    a line from the buffer, so its length bounds the passes. *)
Definition onData (jobId : value) (buffer : string) (chunk : list Byte.byte)
  : string * list Action :=
  let buffer := (buffer ++ toString chunk)%string in
  drain (String.length buffer) jobId buffer.

(** The listener applied to the chunks of a stream, in order. *)
Fixpoint onChunks (jobId : value) (buffer : string) (chunks : list (list Byte.byte))
  : string * list Action :=
  match chunks with
  | [] => (buffer, [])
  | chunk :: rest =>
      let '(buffer, actions) := onData jobId buffer chunk in
      let '(buffer, more) := onChunks jobId buffer rest in
      (buffer, actions ++ more)
  end.

End Parser.

(** [fetchResultWithRetry(jobId, retries)]: [responses] are the
    completions of the successive [fetchJson] calls for the result of the
    job.  The answer is the completion of the returned promise and the
    number of requests made, or [None] when the responses run out before
    the promise settles.  The wait of [delayMs] before a retry takes time
    only and is not represented. *)
Fixpoint fetchResultWithRetry (responses : list (Completion value)) (retries : Z)
  : option (Completion value * nat) :=
  match responses with
  | [] => None
  | Throw msg :: _ => Some (Throw msg, 1%nat)
  | Normal result :: later =>
      if truthy result && truthy (prop result "ok") then Some (Normal result, 1%nat)
      else if truthy result && is_str (prop result "error") "job not finished"
              && (0 <? retries) then
        match fetchResultWithRetry later (retries - 1) with
        | Some (c, n) => Some (c, S n)
        | None => None
        end
      else Some (Normal result, 1%nat)
  end.

(** The [.then] and [.catch] callbacks that handle a [done] event. *)
Definition onResult (jobId : value) (r : Completion value) : list Action :=
  match r with
  | Normal result =>
      if truthy result && truthy (prop result "ok") then
        [Send "pdf2zh:done"
           (VObj [("jobId", jobId); ("ok", VBool true); ("result", result)])]
      else
        [Send "pdf2zh:error"
           (VObj [("jobId", jobId);
                  ("message", or_else (opt_prop result "error") (VStr "引擎执行失败"));
                  ("detail", or_else (opt_prop result "detail") (VStr ""))]);
         Send "pdf2zh:done" (VObj [("jobId", jobId); ("ok", VBool false)])]
  | Throw message =>
      [Send "pdf2zh:error"
         (VObj [("jobId", jobId); ("message", VStr "获取结果失败");
                ("detail", VStr message)]);
       Send "pdf2zh:done" (VObj [("jobId", jobId); ("ok", VBool false)])]
  end.

(** The default of the [retries] parameter. *)
Definition DEFAULT_RETRIES : Z := 10.

(** What a [done] event leads to: [fetchResultWithRetry(jobId)] and the
    callbacks on its promise. *)
Definition onDone (jobId : value) (responses : list (Completion value))
  : option (list Action) :=
  match fetchResultWithRetry responses DEFAULT_RETRIES with
  | Some (r, _) => Some (onResult jobId r)
  | None => None
  end.

(** The response that asks for a retry. *)
Definition not_finished : value :=
  VObj [("ok", VBool false); ("error", VStr "job not finished")].

Definition is_not_finished (result : value) : bool :=
  negb (truthy (prop result "ok")) && is_str (prop result "error") "job not finished".

(** Whether a completion of the result fetch is a success. *)
Definition succeeded (r : Completion value) : bool :=
  match r with
  | Normal result => truthy result && truthy (prop result "ok")
  | Throw _ => false
  end.

(** A byte of an ASCII character: one that [toString] decodes by itself. *)
Definition is_ascii (b : Byte.byte) : bool := (Byte.to_nat b <? 128)%nat.

(** A stream made of whole lines, each ended by a newline. *)
Fixpoint unlines (lines : list string) : string :=
  match lines with
  | [] => EmptyString
  | line :: rest => (line ++ String newline (unlines rest))%string
  end.

(** The notifications of one kind among some actions. *)
Definition sent_on (channel : string) (actions : list Action) : list value :=
  omap (λ a, match a with
             | Send c data => if String.eqb c channel then Some data else None
             | FetchResult _ => None
             end) actions.

(** The frame of the stream property. *)
Definition progress_text : string :=
  ("{" ++ quoted "type" ++ ":" ++ quoted "progress" ++ "," ++
   quoted "jobId" ++ ":" ++ quoted "j1" ++ "," ++ quoted "pct" ++ ":42}")%string.

Definition progress_frame : list Byte.byte :=
  String.list_byte_of_string ("data: " ++ progress_text ++ String newline "")%string.

Definition progress_payload : value :=
  VObj [("type", VStr "progress"); ("jobId", VStr "j1"); ("pct", VNum 42 0)].

Definition progress_notification : Action :=
  Send "pdf2zh:progress"
    (VObj [("jobId", VStr "j1"); ("type", VStr "progress"); ("pct", VNum 42 0)]).

End Relay.

(** * The renderer: the notification handlers of App.tsx *)

Module Renderer.

Record Result := { filename : string; pdfBase64 : string }.

(** The state of the [App] component that its handlers read and write:
    the [useState] cells, the two refs, and the value of the file input
    ([None] while [inputRef.current] is [null]). *)
Record UiState := {
  selectedFilePath : option string;
  sourceFileName : string;
  isTranslating : bool;
  progressPct : Z;
  statusText : string;
  result : option Result;
  outputFilename : string;
  jobId : option string;
  jobIdRef : option string;
  error : string;
  inputValue : option string
}.

(** The data of the three notifications, as the handlers use them. *)
Record ProgressData := {
  p_jobId : option string; pct : Z; stage : option string; message : option string
}.
Record ResultPayload := { r_filename : string; pdf_base64 : string }.
Record DoneData := {
  d_jobId : option string; ok : bool; d_result : option ResultPayload
}.
Record ErrorData := { e_jobId : option string; e_message : string }.

(** What a handler asks of the main process. *)
Inductive Call := GetResult (jobId : option string).

(** [Boolean(s)] for [s : string | null | undefined] *)
Definition truthy (s : option string) : bool :=
  match s with
  | Some s => negb (String.eqb s "")
  | None => false
  end.

(** [a === b] for [string | null] *)
Definition same (a b : option string) : bool := bool_decide (a = b).

(** [parts.filter(Boolean).join(' ')] *)
Definition join_truthy (parts : list (option string)) : string :=
  String.concat " " (omap (λ part, if truthy part then part else None) parts).

(** The callback given to [window.pdf2zh.onProgress]. *)
Definition onProgress (data : ProgressData) (s : UiState) : UiState * list Call :=
  if truthy (p_jobId data) && same (p_jobId data) (jobIdRef s) then
    ({| selectedFilePath := selectedFilePath s; sourceFileName := sourceFileName s;
        isTranslating := isTranslating s;
        progressPct := pct data;
        statusText := join_truthy [stage data; message data];
        result := result s; outputFilename := outputFilename s;
        jobId := jobId s; jobIdRef := jobIdRef s; error := error s;
        inputValue := inputValue s |}, [])
  else (s, []).

(** What both branches that show a result do. *)
Definition showResult (name base64 : string) (s : UiState) : UiState :=
  {| selectedFilePath := None; sourceFileName := "";
     isTranslating := isTranslating s;
     progressPct := progressPct s; statusText := statusText s;
     result := Some {| filename := name; pdfBase64 := base64 |};
     outputFilename := name;
     jobId := jobId s; jobIdRef := jobIdRef s; error := error s;
     inputValue := match inputValue s with Some _ => Some "" | None => None end |}.

Definition setIsTranslating (b : bool) (s : UiState) : UiState :=
  {| selectedFilePath := selectedFilePath s; sourceFileName := sourceFileName s;
     isTranslating := b;
     progressPct := progressPct s; statusText := statusText s;
     result := result s; outputFilename := outputFilename s;
     jobId := jobId s; jobIdRef := jobIdRef s; error := error s;
     inputValue := inputValue s |}.

(** The callback given to [window.pdf2zh.onDone]. *)
Definition onDone (data : DoneData) (s : UiState) : UiState * list Call :=
  if truthy (d_jobId data) && same (d_jobId data) (jobIdRef s) then
    let s := setIsTranslating false s in
    match ok data, d_result data with
    | true, Some r => (showResult (r_filename r) (pdf_base64 r) s, [])
    | true, None => (s, [GetResult (d_jobId data)])
    | false, _ => (s, [])
    end
  else (s, []).

(** What [getResult] resolves to: [null], or an object with these fields. *)
Record Fetched := {
  f_ok : bool; f_pdf_base64 : option string; f_filename : option string
}.

(** The [.then] callback of [window.pdf2zh.getResult(data.jobId)]. *)
Definition onGetResult (fetched : option Fetched) (s : UiState) : UiState :=
  match fetched with
  | Some r =>
      if f_ok r && truthy (f_pdf_base64 r) && truthy (f_filename r)
      then showResult (default "" (f_filename r)) (default "" (f_pdf_base64 r)) s
      else s
  | None => s
  end.

(** The callback given to [window.pdf2zh.onError]. *)
Definition onError (data : ErrorData) (s : UiState) : UiState * list Call :=
  if negb (truthy (e_jobId data)) || same (e_jobId data) (jobIdRef s) then
    ({| selectedFilePath := selectedFilePath s; sourceFileName := sourceFileName s;
        isTranslating := false;
        progressPct := progressPct s; statusText := statusText s;
        result := None; outputFilename := outputFilename s;
        jobId := jobId s; jobIdRef := jobIdRef s;
        error := e_message data;
        inputValue := inputValue s |}, [])
  else (s, []).

(** A notification of one of the three kinds. *)
Inductive Notification :=
| Progress (data : ProgressData)
| Done (data : DoneData)
| Error (data : ErrorData).

Definition carried (n : Notification) : option string :=
  match n with
  | Progress data => p_jobId data
  | Done data => d_jobId data
  | Error data => e_jobId data
  end.

Definition handle (n : Notification) (s : UiState) : UiState * list Call :=
  match n with
  | Progress data => onProgress data s
  | Done data => onDone data s
  | Error data => onError data s
  end.

(** A window that watches job j1 while it is translated. *)
Definition watching_j1 : UiState :=
  {| selectedFilePath := Some "/tmp/paper.pdf"; sourceFileName := "paper.pdf";
     isTranslating := true; progressPct := 10; statusText := "translate";
     result := None; outputFilename := "paper (双语).pdf";
     jobId := Some "j1"; jobIdRef := Some "j1"; error := "";
     inputValue := Some "paper.pdf" |}.

End Renderer.

(** * The ['start-translate'] handler of the main process *)

Module Ipc.
Import JS.

Record Params := { filePath : string; service : string }.

Inductive Action :=
| StartEngineServer
| Send (channel : string) (data : value)
| PostTranslate (body : value)
| OpenProgressStream (jobId : value).

(** A handler does things and completes; an [await] takes the completion
    of the awaited promise from the outer world. *)
Definition Script (A : Type) : Type := list Action * Completion A.

#[local] Instance Script_ret : MRet Script := λ A a, ([], Normal a).
#[local] Instance Script_bind : MBind Script := λ A B f m,
  match m with
  | (acts, Normal a) => match f a with (more, c) => (acts ++ more, c) end
  | (acts, Throw msg) => (acts, Throw msg)
  end.

Definition perform (a : Action) : Script unit := ([a], Normal tt).
Definition throw {A} (msg : string) : Script A := ([], Throw msg).
Definition await {A} (a : Action) (c : Completion A) : Script A := ([a], c).
Definition lift {A} (c : Completion A) : Script A := ([], c).

Section Handler.

(** [path.basename] *)
Variable basename : string → string.

(** [ipcMain.handle('start-translate', ...)]: [engine] is how
    [startEngineServer()] completes and [translated] how the POST of
    [/translate] does, should the handler come to await them. *)
Definition startTranslate (params : Params)
  (engine : Completion Z) (translated : Completion value) : Script value :=
  let filePath := filePath params in
  let service := service params in
  if String.eqb filePath "" then
    perform (Send "pdf2zh:error"
               (VObj [("jobId", VNull); ("message", VStr "未选择 PDF 文件")]));;
    mret (VObj [("jobId", VNull)])
  else
    await StartEngineServer engine;;
    if negb (String.eqb service "google") && negb (String.eqb service "bing") then
      let message := ("不支持的翻译服务: " ++ service)%string in
      perform (Send "pdf2zh:error" (VObj [("jobId", VNull); ("message", VStr message)]));;
      throw message
    else
      let payload :=
        VObj [("source_path", VStr filePath);
              ("source_filename", VStr (basename filePath));
              ("service", VStr service);
              ("threads", VNum 4 0)] in
      response ← await (PostTranslate payload) translated;
      jobId ← lift (member response "jobId");
      (if truthy jobId then perform (OpenProgressStream jobId) else mret tt);;
      mret (VObj [("jobId", jobId)]).

End Handler.

Definition is_post (a : Action) : bool :=
  match a with PostTranslate _ => true | _ => false end.

End Ipc.

(** * The worker launcher *)

Module Launcher.
Import JS.

(** What [resolveEngineServerCommand] returns. *)
Record Resolved := {
  command : string;
  args : list string;
  attempts : list string
}.

(** What the launcher asks of its surroundings:
    [process.platform === 'win32'],
    [process.env.NODE_ENV === 'development'], [app.getAppPath()],
    [process.resourcesPath], [path.join], [path.sep], [path.isAbsolute],
    [fs.existsSync], and [spawnSync(command, args, { stdio: 'ignore' }).error]
    ([None] when the command could be run, else the [code] of the
    error). *)
Record Env := {
  win32 : bool;
  isDev : bool;
  appPath : string;
  resourcesPath : string;
  path_join : list string → string;
  path_sep : ascii;
  path_isAbsolute : string → bool;
  existsSync : string → bool;
  spawnSync_error : string → list string → option string
}.

Section WithEnv.

Variable env : Env.

Definition isCommandAvailable (command : string) (args : list string) : bool :=
  match spawnSync_error env command args with
  | None => true
  | Some code => negb (String.eqb code "ENOENT")
  end.

Definition isUsableCommand (candidatePath : option string) (checkArgs : list string)
  : bool :=
  match candidatePath with
  | None => false
  | Some p =>
      if String.eqb p "" then false else
      let hasPathSeparator := 0 <=? indexOf (path_sep env) p in
      if path_isAbsolute env p || hasPathSeparator then existsSync env p
      else isCommandAvailable p checkArgs
  end.

Definition resolvePythonCommand : option string :=
  if win32 env then
    if isCommandAvailable "python" ["-V"] then Some "python" else None
  else if isCommandAvailable "python3" ["-V"] then Some "python3"
  else if isCommandAvailable "python" ["-V"] then Some "python"
  else None.

(** The message of the error thrown when nothing is usable. *)
Definition notFound (attempts : list string) : string :=
  ("未找到可用的 pdf2zh 服务命令。已尝试：" ++ String.concat ", " attempts)%string.

(** The [for] loop over [devCandidates]; [attempts] is the array as it is
    when the loop reaches these candidates. *)
Fixpoint tryCandidates (candidates : list (option string * list string))
  (attempts : list string) : Completion Resolved :=
  match candidates with
  | [] => Throw (notFound attempts)
  | (path, args) :: rest =>
      match path with
      | None => tryCandidates rest attempts
      | Some p =>
          if String.eqb p "" then tryCandidates rest attempts else
          let attempts := attempts ++ [p] in
          if isUsableCommand (Some p) ["-V"]
          then Normal {| command := p; args := args; attempts := attempts |}
          else tryCandidates rest attempts
      end
  end.

Definition baseArgs (port ppid : Z) (logDir : string) : list string :=
  ["--port"; pretty port; "--ppid"; pretty ppid; "--log-dir"; logDir].

Definition serverExe : string :=
  path_join env [resourcesPath env; "engine"; "pdf2zh-engine-server.exe"].

Definition venvPython : string :=
  if win32 env
  then path_join env [appPath env; "engine"; ".venv"; "Scripts"; "python.exe"]
  else path_join env [appPath env; "engine"; ".venv"; "bin"; "python"].

Definition moduleArgs : list string := ["-m"; "pdf2zh_engine.server"].

(** index.js, [resolveEngineServerCommand]; [port] and [ppid] are
    integers. *)
Definition resolveEngineServerCommand (port ppid : Z) (logDir : string)
  : Completion Resolved :=
  let baseArgs := baseArgs port ppid logDir in
  if negb (isDev env) then
    if existsSync env serverExe then
      Normal {| command := serverExe; args := baseArgs; attempts := [serverExe] |}
    else Throw (notFound [serverExe])
  else
    let devPythonCmd := resolvePythonCommand in
    tryCandidates
      [(Some venvPython, moduleArgs ++ baseArgs);
       (devPythonCmd, moduleArgs ++ baseArgs)] [].

End WithEnv.

(** A development checkout on a POSIX system: paths are joined with a
    slash, and the files that exist and the commands that run are
    given. *)
Definition posix_join (parts : list string) : string := String.concat "/" parts.

Definition posix_absolute (p : string) : bool := String.prefix "/" p.

Definition only_python3 (command : string) (args : list string) : option string :=
  if String.eqb command "python3" then None else Some "ENOENT".

Definition dev_checkout (exists_ : string → bool) : Env :=
  {| win32 := false; isDev := true; appPath := "/repo"; resourcesPath := "/res";
     path_join := posix_join; path_sep := "/"%char; path_isAbsolute := posix_absolute;
     existsSync := exists_; spawnSync_error := only_python3 |}.

Definition packaged (exists_ : string → bool) : Env :=
  {| win32 := true; isDev := false; appPath := "/app"; resourcesPath := "/res";
     path_join := posix_join; path_sep := "/"%char; path_isAbsolute := posix_absolute;
     existsSync := exists_; spawnSync_error := only_python3 |}.

End Launcher.

(** * Files to open *)

Module OpenFile.
Import JS.

(** [c.toLowerCase()] for the letters A to Z.  This is the whole of
    [toLowerCase] as far as a test against ['.pdf'] can tell: no other
    character has a lower case form among the four characters of the
    suffix. *)
Definition lower (c : ascii) : ascii :=
  let n := nat_of_ascii c in
  if (65 <=? n)%nat && (n <=? 90)%nat then ascii_of_nat (n + 32) else c.

Fixpoint toLowerCase (s : string) : string :=
  match s with
  | EmptyString => EmptyString
  | String c s' => String (lower c) (toLowerCase s')
  end.

Definition endsWith (s suffix : string) : bool :=
  String.prefix (string_rev suffix) (string_rev s).

(** [arg.toLowerCase().endsWith('.pdf')] *)
Definition isPdfName (arg : string) : bool := endsWith (toLowerCase arg) ".pdf".

Section Files.

(** [path.resolve] and [fs.existsSync] *)
Variable path_resolve : string → string.
Variable existsSync : string → bool.

(** index.js, [extractPdfPathFromArgv]. *)
Fixpoint extractPdfPathFromArgv (argv : list string) : option string :=
  match argv with
  | [] => None
  | arg :: rest =>
      if String.eqb arg "" || startsWith arg "-" then extractPdfPathFromArgv rest
      else if negb (isPdfName arg) then extractPdfPathFromArgv rest
      else
        let candidate := path_resolve arg in
        if existsSync candidate then Some candidate
        else extractPdfPathFromArgv rest
  end.

(** An argument that [extractPdfPathFromArgv] accepts. *)
Definition accepted (arg : string) : bool :=
  negb (String.eqb arg "") && negb (startsWith arg "-") && isPdfName arg &&
  existsSync (path_resolve arg).

End Files.

(** The window as [pushOpenFileToRenderer] sees it: [mainWindow] is
    [null] ([None]) or a window whose web contents are destroyed or not;
    and the module-level variable [pendingOpenFilePath]. *)
Record State := {
  mainWindow : option bool;
  pendingOpenFilePath : option string
}.

Inductive Effect :=
| SendOpenFile (filePath : string)
| WriteMainLog (level : string).

Definition alive (s : State) : bool :=
  match mainWindow s with
  | Some destroyed => negb destroyed
  | None => false
  end.

(** index.js, [pushOpenFileToRenderer]; [None] is a [null] path. *)
Definition pushOpenFileToRenderer (filePath : option string) (s : State)
  : State * list Effect :=
  match filePath with
  | None => (s, [])
  | Some p =>
      if String.eqb p "" then (s, [])
      else if alive s then (s, [SendOpenFile p; WriteMainLog "info"])
      else ({| mainWindow := mainWindow s; pendingOpenFilePath := Some p |}, [])
  end.

(** The listener of ['did-finish-load'] that [createWindow] registers. *)
Definition onDidFinishLoad (s : State) : State * list Effect :=
  match pendingOpenFilePath s with
  | None => (s, [])
  | Some p =>
      if String.eqb p "" then (s, [])
      else
        let '(s', out) := pushOpenFileToRenderer (Some p) s in
        ({| mainWindow := mainWindow s'; pendingOpenFilePath := None |}, out)
  end.

End OpenFile.

(** * The renderer: choosing a file and starting a job *)

Module App.
Import JS Renderer.

(** App.tsx, [resetStateForNewFile]. *)
Definition resetStateForNewFile (s : UiState) : UiState :=
  {| selectedFilePath := selectedFilePath s; sourceFileName := sourceFileName s;
     isTranslating := false; progressPct := 0; statusText := "";
     result := None; outputFilename := "";
     jobId := jobId s; jobIdRef := jobIdRef s; error := "";
     inputValue := inputValue s |}.

(** The separators of the pattern [/[\\/]/]. *)
Definition is_sep (c : ascii) : bool := Ascii.eqb c "/" || Ascii.eqb c "\".

(** The last element of [filePath.split(/[\\/]/)]: what follows the last
    separator; [current] is the part read so far. *)
Fixpoint last_part (current : string) (s : string) : string :=
  match s with
  | EmptyString => current
  | String c s' =>
      if is_sep c then last_part EmptyString s'
      else last_part (current ++ String c EmptyString)%string s'
  end.

(** [parts[parts.length - 1] || filePath] *)
Definition fileName (filePath : string) : string :=
  let name := last_part EmptyString filePath in
  if String.eqb name "" then filePath else name.

(** [name.replace(/\.pdf$/i, '')] *)
Definition stripPdf (name : string) : string :=
  if OpenFile.isPdfName name then slice_to (String.length name - 4) name else name.


(** App.tsx, [applySelectedFile]. *)
Definition applySelectedFile (filePath : string) (s : UiState) : UiState :=
  let s := resetStateForNewFile s in
  let name := fileName filePath in
  let stem := stripPdf name in
  {| selectedFilePath := Some filePath; sourceFileName := name;
     isTranslating := isTranslating s; progressPct := progressPct s;
     statusText := statusText s; result := result s;
     outputFilename := (stem ++ " (双语).pdf")%string;
     jobId := jobId s; jobIdRef := jobIdRef s; error := error s;
     inputValue := inputValue s |}.

(** The callback given to [window.pdf2zh.onOpenFile]; [translating] is
    [isTranslatingRef.current]. *)
Definition onOpenFile (translating : bool) (filePath : string) (s : UiState) : UiState :=
  if String.eqb filePath "" || translating then s else applySelectedFile filePath s.

(** What the [start] function asks for. *)
Inductive Request :=
| Alert (text : string)
| Start (filePath service : string).

(** App.tsx, [start], up to its [await]; [service] is the state cell of
    the selector. *)
Definition start (service : string) (s : UiState) : UiState * list Request :=
  if Renderer.truthy (selectedFilePath s) then
    ({| selectedFilePath := selectedFilePath s; sourceFileName := sourceFileName s;
        isTranslating := true; progressPct := 0; statusText := "";
        result := None; outputFilename := outputFilename s;
        jobId := jobId s; jobIdRef := jobIdRef s; error := "";
        inputValue := inputValue s |},
     [Start (default "" (selectedFilePath s)) service])
  else (s, [Alert "请选择 PDF"]).

(** [start] after its [await]: the job id of the reply is stored. *)
Definition startResolved (reply : option string) (s : UiState) : UiState :=
  {| selectedFilePath := selectedFilePath s; sourceFileName := sourceFileName s;
     isTranslating := isTranslating s; progressPct := progressPct s;
     statusText := statusText s; result := result s;
     outputFilename := outputFilename s;
     jobId := reply; jobIdRef := reply; error := error s;
     inputValue := inputValue s |}.

(** The window before anything was chosen. *)
Definition fresh : UiState :=
  {| selectedFilePath := None; sourceFileName := ""; isTranslating := false;
     progressPct := 0; statusText := ""; result := None; outputFilename := "";
     jobId := None; jobIdRef := None; error := ""; inputValue := Some "" |}.

End App.

(** * Properties *)

Module SupervisorFacts.
Import Supervisor.

(** [stopEngineServer] never throws; it returns in a state in which its
    guard holds, and under its guard it does nothing at all. *)
Lemma stopEngineServer_result win32 os (s : State) :
  ∃ s' es, stopEngineServer win32 os s = (Normal tt, s', es) ∧
           guarded s' ∧ (guarded s → s' = s ∧ es = []).
Proof.
  unfold guarded. destruct s as [port [[h p]|] ready [|]].
  - eexists _, _. split; [reflexivity|]. split; [by right|]. done.
  - destruct win32.
    + eexists _, _. split; [reflexivity|]. split; [by left|]. intros [?|?]; discriminate.
    + cbv. destruct (os (ToGroup p) SIGTERM); [destruct (os (ToPid p) SIGTERM)|];
        (eexists _, _; split; [reflexivity|]; split; [by left|]; intros [?|?]; discriminate).
  - eexists _, _. split; [reflexivity|]. split; [by left|]. done.
  - eexists _, _. split; [reflexivity|]. split; [by left|]. done.
Qed.

(** What one stop of a running worker does where signals reach the
    process group: a log line, SIGTERM to the group, and the timer that
    will send SIGKILL. *)
Lemma stopEngineServer_running :
  stopEngineServer false (λ _ _, None) (vars running_world) =
    (Normal tt, idle,
     [WriteMainLog "info"; ProcessKill (ToGroup (Some 4001)) SIGTERM;
      SetTimeout 1500 (Some 4001)]).
Proof. reflexivity. Qed.

(** C8. Shutdown is idempotent: [stopEngineServer] completes normally,
    a second call right after it changes nothing and sends nothing (no
    log line, no signal, no timer), and so does a call made while no
    worker process is owned, whatever the other variables hold. *)
Theorem stopEngineServer_idempotent
  (win32 : bool) (os1 os2 : Target → Signal → option string) (s : State) :
  (∃ s1 es1,
      stopEngineServer win32 os1 s = (Normal tt, s1, es1) ∧
      stopEngineServer win32 os2 s1 = (Normal tt, s1, [])) ∧
  (∀ port ready stopping,
      let s0 := {| engineServerPort := port; engineServerProcess := None;
                   engineServerReady := ready; isStoppingEngine := stopping |} in
      stopEngineServer win32 os1 s0 = (Normal tt, s0, [])).
Proof.
  split.
  - destruct (stopEngineServer_result win32 os1 s) as (s1 & es1 & E1 & H1 & _).
    exists s1, es1. split; [exact E1|].
    destruct (stopEngineServer_result win32 os2 s1) as (s2 & es2 & E2 & _ & H2).
    destruct (H2 H1) as [-> ->]. exact E2.
  - intros port ready stopping. reflexivity.
Qed.

(** What [stopEngineServer] leaves in the owned variables when it gets
    past its guard. *)
Lemma stopEngineServer_clears win32 os (s : State) :
  engineServerProcess s ≠ None → isStoppingEngine s = false →
  cleared (stopEngineServer win32 os s).1.2 ∧
  isStoppingEngine (stopEngineServer win32 os s).1.2 = false.
Proof.
  unfold cleared. destruct s as [port [[h p]|] ready [|]]; try done. intros _ _.
  destruct win32; [done|].
  cbv. destruct (os (ToGroup p) SIGTERM); [destruct (os (ToPid p) SIGTERM)|]; done.
Qed.

Lemma stopEngineServer_spawns_nothing win32 os (s : State) :
  spawned (stopEngineServer win32 os s).2 = [].
Proof.
  destruct s as [port [[h p]|] ready [|]]; try done.
  destruct win32; [done|].
  cbv. destruct (os (ToGroup p) SIGTERM); [destruct (os (ToPid p) SIGTERM)|]; done.
Qed.

(** C10. When the ['close'] event of a worker process is handled, and
    when [stopEngineServer] gets past its guard (a process is owned and no
    stop is under way), the process handle, the cached port and the start
    promise are all [null] afterwards; a call of [startEngineServer] in
    such a state is not given an old promise or port: it creates a new
    attempt, which starts at the first health probe and has no outcome
    yet. *)
Theorem state_cleared_on_worker_exit
  (win32 : bool) (os : Target → Signal → option string) (PORT : Z) :
  (∀ w h w', step win32 os PORT w (ProcessClose h) = Some w' → cleared (vars w')) ∧
  (∀ s, engineServerProcess s ≠ None → isStoppingEngine s = false →
        cleared (stopEngineServer win32 os s).1.2) ∧
  (∀ w c, cleared (vars w) →
        let a := length (attempts w) in
        let w' := startEngineServer c w in
        engineServerReady (vars w') = Some a ∧
        attempts w' = attempts w ++ [ProbingBefore] ∧
        callers w' = callers w ++ [(c, a)] ∧
        outcome w' a = None ∧
        engineServerPort (vars w') = None).
Proof.
  split; [|split].
  - intros w h w' H. cbn in H. repeat case_decide; try done.
    injection H as <-. done.
  - intros s H1 H2. by apply stopEngineServer_clears.
  - intros w c (Hport & _ & Hready). unfold startEngineServer. rewrite Hready. cbn.
    split; [done|]. split; [done|]. split; [done|]. split; [|done].
    unfold outcome. cbn. by rewrite list_lookup_middle.
Qed.

Lemma state_cleared_on_worker_exit_witness :
  (∃ w', step false (λ _ _, None) 18080 running_world (ProcessClose 0) = Some w' ∧
         cleared (vars w') ∧
         engineServerReady (vars (startEngineServer 7 w')) = Some 1%nat) ∧
  cleared (stopEngineServer false (λ _ _, None) (vars running_world)).1.2.
Proof.
  pose proof (state_cleared_on_worker_exit false (λ _ _, None) 18080) as (Hclose & Hstop & Hnext).
  split.
  - eexists. split; [reflexivity|]. split.
    + apply (Hclose running_world 0%nat). reflexivity.
    + refine (proj1 (Hnext _ 7%nat _)). apply (Hclose running_world 0%nat). reflexivity.
  - apply Hstop; [discriminate | reflexivity].
Defined.

(** The timeout branch of [afterPoll]: [stopEngineServer], then the
    throw; no process is spawned on the way. *)
Lemma afterPoll_timeout win32 os PORT (s : State) :
  ∃ s' es msg, afterPoll win32 os PORT false s = (Throw msg, s', es) ∧ spawned es = [].
Proof.
  pose proof (stopEngineServer_spawns_nothing win32 os s) as Hsp.
  destruct (stopEngineServer_result win32 os s) as (s' & es & E & _).
  unfold afterPoll. cbn. unfold mbind, M_bind. rewrite E in Hsp |- *. cbn in *.
  eexists _, _, _. split; [reflexivity|]. by rewrite app_nil_r.
Qed.

Lemma single_attempt_step win32 os PORT (w w' : World) (e : Event) :
  single_attempt w → is_exit e = false →
  (is_call e = true → unsettled w = true) →
  step win32 os PORT w e = Some w' → single_attempt w'.
Proof.
  destruct w as [[port proc ready stopping] atts cs ch cl lg].
  unfold single_attempt, unsettled. cbn. intros (Hch & Hcs & Hat) Hexit Hcall Hstep.
  destruct e as [c | a healthy launch | a healthy | h | ]; try discriminate.
  - (* a call *)
    injection Hstep as <-. specialize (Hcall eq_refl).
    destruct atts as [|ph [|ph' atts]]; [| |done].
    + destruct Hat as [-> ->]. cbn. split; [lia|]. split; [|by split].
      intros c' a' [H|H%list_elem_of_singleton]%elem_of_app; [eauto | congruence].
    + cbn in Hcall. rewrite andb_true_r in Hcall.
      destruct Hat as [Hready Hprobe]. rewrite (Hready Hcall). cbn.
      split; [done|]. split; [|by split].
      intros c' a' [H|H%list_elem_of_singleton]%elem_of_app; [eauto | congruence].
  - (* the first probe answers *)
    destruct atts as [|ph [|ph' atts]]; [done| |done].
    destruct a as [|a]; [|done]. cbn in Hstep. destruct ph; try done.
    destruct Hat as [Hready Hprobe]. rewrite (Hprobe eq_refl) in *.
    destruct healthy; [|destruct launch]; injection Hstep as <-; cbn;
      (split; [lia|]); (split; [done|]); split; try done.
  - (* the poll settles *)
    destruct atts as [|ph [|ph' atts]]; [done| |done].
    destruct a as [|a]; [|done]. cbn in Hstep. destruct ph; try done.
    destruct healthy.
    + injection Hstep as <-. cbn. rewrite app_nil_r.
      split; [done|]. split; [done|]. by split.
    + unfold exec in Hstep. cbn [vars] in Hstep.
      destruct (afterPoll_timeout win32 os PORT
                  {| engineServerPort := port; engineServerProcess := proc;
                     engineServerReady := ready; isStoppingEngine := stopping |})
        as (s' & es & msg & E & Hsp).
      rewrite E in Hstep. injection Hstep as <-. cbn. rewrite Hsp. cbn. rewrite !app_nil_r.
      split; [done|]. split; [done|]. by split.
Qed.

Lemma single_attempt_run win32 os PORT (tr : list Event) : ∀ w w',
  single_attempt w → no_exit tr = true →
  concurrent_calls win32 os PORT w tr = true →
  run win32 os PORT w tr = Some w' → single_attempt w'.
Proof.
  induction tr as [|e tr IH]; intros w w' Hinv Hne Hcc Hrun; cbn in *.
  - by injection Hrun as <-.
  - apply andb_true_iff in Hne as [He Hne]. apply andb_true_iff in Hcc as [Hc Hcc].
    destruct (step win32 os PORT w e) as [w1|] eqn:Hstep; [|done].
    apply (IH w1 w'); try done.
    apply (single_attempt_step win32 os PORT w w1 e); try done.
    + by apply negb_true_iff.
    + intros Hcall. by rewrite Hcall in Hc.
Qed.

(** An attempt that spawns a worker which never becomes healthy is
    rejected. *)
Lemma health_timeout_rejects win32 os PORT (p : option Z) (caller : nat) :
  ∃ w message,
    run win32 os PORT init
      [CallStart caller; FirstProbe 0 false (Started p); PollSettled 0 false] = Some w ∧
    outcome w 0 = Some (Throw message).
Proof.
  destruct win32; [eexists _, _; split; reflexivity|].
  cbv. destruct (os (ToGroup p) SIGTERM); [destruct (os (ToPid p) SIGTERM)|];
    eexists _, _; split; reflexivity.
Qed.

(** C1, as the code has it. Take any run from program start in which
    every call of [startEngineServer] is issued while no attempt has
    settled, and in which no worker ['close'] event and no outside
    [stopEngineServer] is handled. Then at most one worker process is
    spawned, and all calls are given the promise of the same attempt, so
    that they observe the same outcome. *)
Theorem single_flight_while_worker_alive
  (win32 : bool) (os : Target → Signal → option string) (PORT : Z)
  (tr : list Event) (w : World) :
  no_exit tr = true →
  concurrent_calls win32 os PORT init tr = true →
  run win32 os PORT init tr = Some w →
  (length (children w) ≤ 1)%nat ∧
  ∀ c1 a1 c2 a2, (c1, a1) ∈ callers w → (c2, a2) ∈ callers w →
    a1 = a2 ∧ outcome w a1 = outcome w a2.
Proof.
  intros Hne Hcc Hrun.
  assert (single_attempt init) as Hinit.
  { split; [cbn; lia|]. split; [|done]. intros c a H. by apply elem_of_nil in H. }
  destruct (single_attempt_run win32 os PORT tr init w Hinit Hne Hcc Hrun) as (Hch & Hcs & _).
  split; [done|]. intros c1 a1 c2 a2 H1 H2.
  rewrite (Hcs _ _ H1), (Hcs _ _ H2). done.
Qed.

Lemma single_flight_while_worker_alive_witness :
  ∃ w, run false (λ _ _, None) 18080 init two_calls = Some w ∧
       length (children w) = 1%nat ∧
       callers w = [(0, 0); (1, 0); (2, 0)]%nat ∧
       outcome w 0 = Some (Normal 18080) ∧
       ((length (children w) ≤ 1)%nat ∧
        ∀ c1 a1 c2 a2, (c1, a1) ∈ callers w → (c2, a2) ∈ callers w →
          a1 = a2 ∧ outcome w a1 = outcome w a2).
Proof.
  eexists. split; [reflexivity|]. split; [reflexivity|]. split; [reflexivity|].
  split; [reflexivity|].
  apply (single_flight_while_worker_alive false (λ _ _, None) 18080 two_calls);
    reflexivity.
Defined.

(** C1, as the specification states it, fails: the worker of the first
    attempt exits while the attempt still polls, which clears
    [engineServerReady]; the second call, issued before any attempt has
    settled, starts a second attempt, which spawns a second worker. *)
Lemma single_flight_fails_after_worker_exit :
  ¬ single_flight false (λ _ _, None) 18080 exit_while_starting.
Proof.
  intros H. destruct (H _ eq_refl eq_refl) as [Hle _]. vm_compute in Hle. lia.
Qed.

(** In the same situation the two calls can also end differently: the
    second attempt resolves with the port, then the first attempt times
    out, stops the worker of the second and is rejected. *)
Lemma exit_while_starting_outcomes_differ :
  ∃ w,
    run false (λ _ _, None) 18080 init exit_then_recover = Some w ∧
    concurrent_calls false (λ _ _, None) 18080 init exit_then_recover = true ∧
    callers w = [(0, 0); (1, 1)]%nat ∧
    outcome w 0 = Some (Throw "引擎服务健康检查超时（10s）") ∧
    outcome w 1 = Some (Normal 18080) ∧
    vars w = idle.
Proof.
  eexists. split; [vm_compute; reflexivity|]. vm_compute. repeat split.
Qed.

End SupervisorFacts.

Module HealthPollFacts.
Import Supervisor HealthPoll.

Section Unresponsive.

Variable endpoint : Endpoint.
Hypothesis never : unresponsive endpoint.

(** Each probe of such an endpoint is aborted when its timeout expires. *)
Lemma checkEngineHealth_aborted (now : Z) :
  checkEngineHealth endpoint HEALTH_CHECK_TIMEOUT_MS now
    = (false, now + HEALTH_CHECK_TIMEOUT_MS).
Proof.
  unfold checkEngineHealth, fetchJsonWithTimeout. specialize (never now).
  destruct (endpoint now) as [[delay r]|]; [|done].
  by destruct (Z.ltb_spec delay HEALTH_CHECK_TIMEOUT_MS); [lia|].
Qed.

(** A pass of the loop then takes the probe timeout plus the poll
    interval; entered [k] passes before the deadline, the loop leaves at
    the deadline. *)
Lemma pollLoop_exact (k : nat) : ∀ (fuel : nat) (deadline now : Z),
  (k < fuel)%nat →
  now = deadline - (HEALTH_CHECK_TIMEOUT_MS + HEALTH_POLL_INTERVAL_MS) * Z.of_nat k →
  pollLoop fuel endpoint deadline now = Some (false, deadline).
Proof.
  induction k as [|k IH]; intros fuel deadline now Hfuel Hnow;
    (destruct fuel as [|fuel]; [lia|]); cbn [pollLoop].
  - replace now with deadline by lia. by rewrite Z.ltb_irrefl.
  - unfold HEALTH_CHECK_TIMEOUT_MS, HEALTH_POLL_INTERVAL_MS in Hnow.
    destruct (Z.ltb_spec now deadline); [|lia].
    rewrite checkEngineHealth_aborted. apply IH; [lia|].
    unfold HEALTH_CHECK_TIMEOUT_MS, HEALTH_POLL_INTERVAL_MS. lia.
Qed.

(** For any deadline the loop leaves at or after the deadline, and less
    than one pass after it. *)
Lemma pollLoop_bounds (fuel : nat) : ∀ (deadline now : Z),
  now < deadline →
  deadline - now ≤ (HEALTH_CHECK_TIMEOUT_MS + HEALTH_POLL_INTERVAL_MS) * (Z.of_nat fuel - 1) →
  ∃ t, pollLoop fuel endpoint deadline now = Some (false, t) ∧
       deadline ≤ t < deadline + HEALTH_CHECK_TIMEOUT_MS + HEALTH_POLL_INTERVAL_MS.
Proof.
  induction fuel as [|fuel IH]; intros deadline now Hlt Hfuel;
    unfold HEALTH_CHECK_TIMEOUT_MS, HEALTH_POLL_INTERVAL_MS in *; [lia|].
  cbn [pollLoop]. destruct (Z.ltb_spec now deadline); [|lia].
  rewrite checkEngineHealth_aborted.
  unfold HEALTH_CHECK_TIMEOUT_MS, HEALTH_POLL_INTERVAL_MS.
  destruct (Z_lt_ge_dec (now + 300 + 200) deadline) as [Hmore|Hdone].
  - apply IH; lia.
  - destruct fuel as [|fuel]; [lia|]. cbn [pollLoop].
    destruct (Z.ltb_spec (now + 300 + 200) deadline); [lia|].
    eexists. split; [reflexivity|lia].
Qed.

End Unresponsive.

(** C2. Against a health endpoint that never responds within the probe
    timeout, [waitForEngineHealthy] with the total of 10 s resolves to
    [false] no earlier than its deadline and no later than the deadline
    plus one poll interval; and a call of [startEngineServer] that spawns
    a worker is rejected at a time within the same bounds of the deadline
    of its poll, which starts when the first probe has timed out. *)
Theorem startup_poll_bounded (endpoint : Endpoint) (fuel : nat) (now : Z) :
  unresponsive endpoint →
  (20 < fuel)%nat →
  (∃ t, waitForEngineHealthy fuel endpoint HEALTH_POLL_TOTAL_MS now = Some (false, t) ∧
        now + HEALTH_POLL_TOTAL_MS ≤ t ≤
        now + HEALTH_POLL_TOTAL_MS + HEALTH_POLL_INTERVAL_MS) ∧
  (∀ win32 os PORT p caller,
      let deadline := now + HEALTH_CHECK_TIMEOUT_MS + HEALTH_POLL_TOTAL_MS in
      ∃ t w message,
        attemptEvents fuel endpoint (Started p) 0 now =
          Some [(now + HEALTH_CHECK_TIMEOUT_MS, FirstProbe 0 false (Started p));
                (t, PollSettled 0 false)] ∧
        deadline ≤ t ≤ deadline + HEALTH_POLL_INTERVAL_MS ∧
        run win32 os PORT init
          [CallStart caller; FirstProbe 0 false (Started p); PollSettled 0 false] = Some w ∧
        outcome w 0 = Some (Throw message)).
Proof.
  intros Hnever Hfuel.
  assert (∀ start, waitForEngineHealthy fuel endpoint HEALTH_POLL_TOTAL_MS start
                   = Some (false, start + HEALTH_POLL_TOTAL_MS)) as Hwait.
  { intros start. unfold waitForEngineHealthy.
    apply (pollLoop_exact endpoint Hnever 20); [lia|].
    unfold HEALTH_POLL_TOTAL_MS, HEALTH_CHECK_TIMEOUT_MS, HEALTH_POLL_INTERVAL_MS. lia. }
  split.
  - eexists. split; [apply Hwait|].
    unfold HEALTH_POLL_TOTAL_MS, HEALTH_POLL_INTERVAL_MS. lia.
  - intros win32 os PORT p caller deadline. subst deadline.
    exists (now + HEALTH_CHECK_TIMEOUT_MS + HEALTH_POLL_TOTAL_MS).
    unfold attemptEvents. rewrite (checkEngineHealth_aborted endpoint Hnever), Hwait.
    destruct (SupervisorFacts.health_timeout_rejects win32 os PORT p caller)
      as (w & message & Hrun & Hout).
    exists w, message. split; [reflexivity|]. split; [|done].
    unfold HEALTH_POLL_INTERVAL_MS. lia.
Qed.

Lemma startup_poll_bounded_witness :
  unresponsive silent ∧
  waitForEngineHealthy 21 silent HEALTH_POLL_TOTAL_MS 5000 = Some (false, 15000) ∧
  ∃ t, waitForEngineHealthy 21 silent HEALTH_POLL_TOTAL_MS 5000 = Some (false, t) ∧
       5000 + HEALTH_POLL_TOTAL_MS ≤ t ≤
       5000 + HEALTH_POLL_TOTAL_MS + HEALTH_POLL_INTERVAL_MS.
Proof.
  assert (unresponsive silent) as Hsilent by (intros now; exact I).
  split; [exact Hsilent|]. split; [reflexivity|].
  apply (startup_poll_bounded silent 21 5000 Hsilent). lia.
Defined.

(** An endpoint that is healthy within the probe timeout is adopted: the
    attempt resolves with the port when the first probe answers, and no
    process is spawned. *)
Lemma healthy_endpoint_is_reused (fuel : nat) (launch : Launch) (now : Z) :
  attemptEvents fuel (healthy_after 50) launch 0 now
    = Some [(now + 50, FirstProbe 0 true launch)] ∧
  ∃ w, run false (λ _ _, None) 18080 init [CallStart 0; FirstProbe 0 true launch] = Some w ∧
       children w = [] ∧ outcome w 0 = Some (Normal 18080).
Proof.
  split; [reflexivity|]. eexists. split; [reflexivity|]. by split.
Qed.

End HealthPollFacts.

Module RelayFacts.
Import JS Relay.

Lemma indexOf_range (c : ascii) (s : string) :
  indexOf c s = -1 ∨ 0 ≤ indexOf c s < Z.of_nat (String.length s).
Proof.
  induction s as [|c' s IH]; cbn [indexOf String.length]; [by left|].
  destruct (Ascii.eqb c c'); [right; lia|].
  destruct (Z.ltb_spec (indexOf c s) 0); [by left|right; lia].
Qed.

Lemma slice_from_length (n : nat) : ∀ s : string,
  String.length (slice_from n s) = (String.length s - n)%nat.
Proof.
  induction n as [|n IH]; intros [|c s]; cbn; done.
Qed.

(** The fuel that [onData] gives the loop is enough: the loop stops
    because no newline is left in the buffer. *)
Lemma drain_complete JSON_parse (jobId : value) (fuel : nat) : ∀ buffer : string,
  (String.length buffer ≤ fuel)%nat →
  indexOf newline (drain JSON_parse fuel jobId buffer).1 = -1.
Proof.
  induction fuel as [|fuel IH]; intros buffer Hlen.
  - destruct buffer; [done|cbn in Hlen; lia].
  - cbn [drain].
    destruct (indexOf_range newline buffer) as [Hno|Hin].
    + rewrite Hno. done.
    + destruct (Z.leb_spec 0 (indexOf newline buffer)); [|lia].
      specialize (IH (slice_from (Z.to_nat (indexOf newline buffer + 1)) buffer)).
      destruct (drain JSON_parse fuel jobId _) as [rest actions]. cbn in *.
      apply IH. rewrite slice_from_length. lia.
Qed.

Ltac run_chunks H := vm_compute; rewrite H; vm_compute; split; reflexivity.

(** C3. Whatever [JSON.parse] is, provided it reads the text of the frame
    as the object it denotes: for every cut of the bytes of the frame
    into two chunks, the listener of a job's stream sends exactly one
    notification, the progress of job j1 with pct 42 (the [jobId] of the
    payload is the one that is sent), and leaves the buffer empty; the
    same as when the frame arrives as one chunk. *)
Theorem progress_frame_chunking
  (JSON_parse : string → option value) (jobId : value) (k : nat) :
  JSON_parse progress_text = Some progress_payload →
  onChunks JSON_parse jobId "" [take k progress_frame; drop k progress_frame]
    = ("", [progress_notification]) ∧
  onChunks JSON_parse jobId "" [progress_frame] = ("", [progress_notification]).
Proof.
  intros H. vm_compute in H.
  do 49 (destruct k as [|k]; [run_chunks H|]). run_chunks H.
Qed.

Lemma progress_frame_chunking_witness :
  length progress_frame = 48%nat ∧
  onChunks JS.JSON_parse (VStr "j1") "" [take 9 progress_frame; drop 9 progress_frame]
    = ("", [progress_notification]).
Proof.
  split; [reflexivity|].
  apply (progress_frame_chunking JS.JSON_parse (VStr "j1") 9). reflexivity.
Defined.

(** A [done] event makes no notification by itself: it starts the fetch
    of the result. *)
Lemma onPayload_done (jobId payload : value) :
  is_str (prop payload "type") "done" = true →
  onPayload jobId payload = [FetchResult jobId].
Proof.
  intros H. destruct payload as [| | | | |items|props]; try discriminate H.
  unfold onPayload, member. cbn [nullish].
  destruct (prop (VObj props) "type") as [| | | |s| |]; try discriminate H.
  apply String.eqb_eq in H as ->. reflexivity.
Qed.

(** A response with a truthy [ok] ends the fetch at once. *)
Lemma fetch_success (result : value) (later : list (Completion value)) (retries : Z) :
  truthy (prop result "ok") = true →
  truthy result = true ∧
  fetchResultWithRetry (Normal result :: later) retries = Some (Normal result, 1%nat).
Proof.
  intros Hok. assert (truthy result = true) as Ht.
  { destruct result; try discriminate Hok; done. }
  split; [done|]. cbn [fetchResultWithRetry]. by rewrite Ht, Hok.
Qed.

(** A response that is not finished costs one retry while any is left. *)
Lemma fetch_retry (result : value) (later : list (Completion value)) (retries : Z) :
  is_not_finished result = true → 0 < retries →
  fetchResultWithRetry (Normal result :: later) retries =
    match fetchResultWithRetry later (retries - 1) with
    | Some (c, n) => Some (c, S n)
    | None => None
    end.
Proof.
  unfold is_not_finished. intros [Hok Herr]%andb_true_iff Hpos.
  apply negb_true_iff in Hok. cbn [fetchResultWithRetry].
  assert (truthy result = true) as Ht.
  { destruct result; try discriminate Herr; done. }
  rewrite Ht, Hok, Herr. cbn. by destruct (Z.ltb_spec 0 retries); [|lia].
Qed.

(** With no retry left, the response is returned as it is. *)
Lemma fetch_exhausted (result : value) (later : list (Completion value)) (retries : Z) :
  is_not_finished result = true → retries ≤ 0 →
  fetchResultWithRetry (Normal result :: later) retries = Some (Normal result, 1%nat).
Proof.
  unfold is_not_finished. intros [Hok Herr]%andb_true_iff Hpos.
  apply negb_true_iff in Hok. cbn [fetchResultWithRetry].
  rewrite Hok, andb_false_r. destruct (Z.ltb_spec 0 retries); [lia|].
  by rewrite andb_false_r.
Qed.

Lemma fetch_all_not_finished (responses : list value) : ∀ (last : value) (retries : Z),
  retries = Z.of_nat (length responses) →
  Forall (λ r, is_not_finished r = true) (responses ++ [last]) →
  fetchResultWithRetry (map Normal (responses ++ [last])) retries
    = Some (Normal last, S (length responses)).
Proof.
  induction responses as [|r responses IH]; intros last retries Hn Hall.
  - apply Forall_cons in Hall as [Hlast _]. cbn [length] in Hn.
    apply (fetch_exhausted last [] retries); [done|lia].
  - cbn [app] in Hall. apply Forall_cons in Hall as [Hr Hall].
    cbn [app map length] in *. rewrite fetch_retry by (done || lia).
    rewrite (IH last (retries - 1)) by (done || lia). done.
Qed.

(** C4. For every job: a [done] event on its stream makes no
    notification by itself, it starts the result fetch; when the result
    responses are three times the not-finished response and then a
    response with [ok: true], the fetch makes four requests and resolves
    to that response, and the relay sends exactly one notification, the
    [done] of the job with [ok: true] and that response as result. *)
Theorem done_retry_success (jobId payload : value) (props : list (string * value)) :
  is_str (prop payload "type") "done" = true →
  lookup_prop "ok" props = VBool true →
  let responses :=
    [Normal not_finished; Normal not_finished; Normal not_finished; Normal (VObj props)] in
  onPayload jobId payload = [FetchResult jobId] ∧
  fetchResultWithRetry responses DEFAULT_RETRIES = Some (Normal (VObj props), 4%nat) ∧
  onDone jobId responses =
    Some [Send "pdf2zh:done"
            (VObj [("jobId", jobId); ("ok", VBool true); ("result", VObj props)])].
Proof.
  intros Hdone Hok responses. subst responses.
  split; [by apply onPayload_done|].
  assert (fetchResultWithRetry
            [Normal not_finished; Normal not_finished; Normal not_finished;
             Normal (VObj props)] DEFAULT_RETRIES = Some (Normal (VObj props), 4%nat)) as E.
  { unfold DEFAULT_RETRIES. do 3 (rewrite fetch_retry by (done || lia)).
    rewrite (proj2 (fetch_success (VObj props) [] _ ltac:(cbn; by rewrite Hok))). done. }
  split; [exact E|]. unfold onDone. rewrite E. cbn. by rewrite Hok.
Qed.

Lemma done_retry_success_witness :
  onDone (VStr "j1")
    [Normal not_finished; Normal not_finished; Normal not_finished;
     Normal (VObj [("ok", VBool true); ("filename", VStr "x.pdf");
                   ("pdf_base64", VStr "JVBERi0=")])] =
  Some [Send "pdf2zh:done"
          (VObj [("jobId", VStr "j1"); ("ok", VBool true);
                 ("result", VObj [("ok", VBool true); ("filename", VStr "x.pdf");
                                  ("pdf_base64", VStr "JVBERi0=")])])].
Proof.
  apply (done_retry_success (VStr "j1") (VObj [("type", VStr "done")])); reflexivity.
Defined.

(** C5. When the first eleven result responses of a job all are
    not-finished responses (the ten retries are then used up), the promise
    of [fetchResultWithRetry] resolves to the eleventh response itself;
    the callback of the [done] event reports it as a failure whose message
    is the [error] text of that response, and then sends the [done] of the
    job with [ok: false]. *)
Theorem retry_exhaustion_returns_last_response
  (jobId : value) (responses : list value) (last : value) :
  length responses = 10%nat →
  Forall (λ r, is_not_finished r = true) (responses ++ [last]) →
  fetchResultWithRetry (map Normal (responses ++ [last])) DEFAULT_RETRIES
    = Some (Normal last, 11%nat) ∧
  onDone jobId (map Normal (responses ++ [last])) =
    Some [Send "pdf2zh:error"
            (VObj [("jobId", jobId); ("message", VStr "job not finished");
                   ("detail", or_else (prop last "detail") (VStr ""))]);
          Send "pdf2zh:done" (VObj [("jobId", jobId); ("ok", VBool false)])].
Proof.
  intros Hlen Hall.
  pose proof (fetch_all_not_finished responses last DEFAULT_RETRIES) as E.
  rewrite Hlen in E. specialize (E eq_refl Hall).
  split; [exact E|]. unfold onDone. rewrite E.
  apply Forall_app in Hall as [_ [Hlast _]%Forall_cons].
  unfold is_not_finished in Hlast. apply andb_true_iff in Hlast as [Hok Herr].
  apply negb_true_iff in Hok. cbn [onResult]. rewrite Hok, andb_false_r.
  destruct last as [| | | | |items|props]; try discriminate Herr.
  unfold opt_prop. cbn [nullish].
  destruct (prop (VObj props) "error") as [| | | |s| |]; try discriminate Herr.
  apply String.eqb_eq in Herr as ->. reflexivity.
Qed.

Lemma retry_exhaustion_returns_last_response_witness :
  fetchResultWithRetry
    (map Normal (replicate 10 not_finished ++
                 [VObj [("ok", VBool false); ("error", VStr "job not finished");
                        ("detail", VStr "still rendering")]]))
    DEFAULT_RETRIES
  = Some (Normal (VObj [("ok", VBool false); ("error", VStr "job not finished");
                        ("detail", VStr "still rendering")]), 11%nat).
Proof.
  apply (retry_exhaustion_returns_last_response (VStr "j1")); [reflexivity|].
  repeat constructor.
Defined.

(** C6. For every job: a first result response that is not ok and is not
    the not-finished response, and a fetch that throws, end the result
    fetch at once; and whenever the result fetch ends in anything but an ok
    response, the relay sends an error notification of the job followed by
    the [done] of the job with [ok: false], and nothing else. *)
Theorem error_done_pairing (jobId : value) :
  (∀ result later retries,
      truthy result && truthy (prop result "ok") = false →
      is_str (prop result "error") "job not finished" = false →
      fetchResultWithRetry (Normal result :: later) retries = Some (Normal result, 1%nat)) ∧
  (∀ message later retries,
      fetchResultWithRetry (Throw message :: later) retries = Some (Throw message, 1%nat)) ∧
  (∀ responses retries r n,
      fetchResultWithRetry responses retries = Some (r, n) →
      succeeded r = false →
      ∃ message detail,
        onResult jobId r =
          [Send "pdf2zh:error"
             (VObj [("jobId", jobId); ("message", message); ("detail", detail)]);
           Send "pdf2zh:done" (VObj [("jobId", jobId); ("ok", VBool false)])]).
Proof.
  split; [|split].
  - intros result later retries Hok Herr. cbn [fetchResultWithRetry].
    by rewrite Hok, Herr, andb_false_r.
  - done.
  - intros responses retries [result|message] n _ Hfail; cbn in Hfail |- *.
    + rewrite Hfail. eauto.
    + eauto.
Qed.

Lemma error_done_pairing_witness :
  onDone (VStr "j1")
    [Normal (VObj [("ok", VBool false); ("error", VStr "translate failed");
                   ("detail", VStr "Traceback")])] =
  Some [Send "pdf2zh:error"
          (VObj [("jobId", VStr "j1"); ("message", VStr "translate failed");
                 ("detail", VStr "Traceback")]);
        Send "pdf2zh:done" (VObj [("jobId", VStr "j1"); ("ok", VBool false)])].
Proof.
  pose proof (error_done_pairing (VStr "j1")) as (Hfirst & _ & _).
  unfold onDone.
  rewrite (Hfirst (VObj [("ok", VBool false); ("error", VStr "translate failed");
                         ("detail", VStr "Traceback")]) [] DEFAULT_RETRIES eq_refl eq_refl).
  reflexivity.
Defined.

End RelayFacts.

Module RendererFacts.
Import Renderer.

Lemma same_false (a b : option string) : a ≠ b → same a b = false.
Proof. intros H. unfold same. by apply bool_decide_eq_false. Qed.

(** C7. A progress, done or error notification that carries a job id
    (a non-empty string, which is what the handlers test) other than the
    one the window watches leaves every state cell of the window as it
    was and asks nothing of the main process. *)
Theorem foreign_job_ignored (n : Notification) (s : UiState) :
  truthy (carried n) = true → carried n ≠ jobIdRef s →
  handle n s = (s, []).
Proof.
  intros Hid Hother. apply same_false in Hother.
  destruct n as [data|data|data]; cbn in *.
  - unfold onProgress. by rewrite Hother, andb_false_r.
  - unfold onDone. by rewrite Hother, andb_false_r.
  - unfold onError. by rewrite Hid, Hother.
Qed.

Lemma foreign_job_ignored_witness :
  handle (Error {| e_jobId := Some "j0"; e_message := "stale" |}) watching_j1
    = (watching_j1, []) ∧
  handle (Done {| d_jobId := Some "j0"; ok := true; d_result := None |}) watching_j1
    = (watching_j1, []).
Proof.
  split; apply foreign_job_ignored; done.
Defined.

(** An error without a job id is not foreign: it is shown whatever job is
    watched. *)
Lemma error_without_job_is_shown (text : string) (s : UiState) :
  error (onError {| e_jobId := None; e_message := text |} s).1 = text ∧
  isTranslating (onError {| e_jobId := None; e_message := text |} s).1 = false.
Proof. done. Qed.

End RendererFacts.

Module IpcFacts.
Import JS Ipc.

(** C9. For a request with a non-empty file path and a service that is
    neither google nor bing, the handler first calls [startEngineServer];
    it never posts to [/translate] and it throws.  When the engine start
    succeeds, it sends one error notification with [jobId: null] that
    names the service, and throws that message; when the engine start
    fails, the handler throws the failure of the start. *)
Theorem unsupported_service_rejected
  (basename : string → string) (params : Params)
  (engine : Completion Z) (translated : Completion value) :
  filePath params ≠ "" → service params ≠ "google" → service params ≠ "bing" →
  let message := ("不支持的翻译服务: " ++ service params)%string in
  let '(actions, completion) := startTranslate basename params engine translated in
  (∃ rest, actions = StartEngineServer :: rest) ∧
  existsb is_post actions = false ∧
  (∃ thrown, completion = Throw thrown) ∧
  (∀ port, engine = Normal port →
     actions = [StartEngineServer;
                Send "pdf2zh:error" (VObj [("jobId", VNull); ("message", VStr message)])] ∧
     completion = Throw message) ∧
  (∀ why, engine = Throw why → actions = [StartEngineServer] ∧ completion = Throw why).
Proof.
  intros Hpath Hgoogle Hbing message. unfold startTranslate.
  apply String.eqb_neq in Hpath, Hgoogle, Hbing. rewrite Hpath, Hgoogle, Hbing.
  destruct engine as [port|why]; cbn; repeat split; eauto; intros; simplify_eq; done.
Qed.

Lemma unsupported_service_rejected_witness :
  startTranslate (λ p, p) {| filePath := "/tmp/a.pdf"; service := "deepl" |}
    (Normal 18080) (Normal (VObj [("jobId", VStr "j1")]))
  = ([StartEngineServer;
      Send "pdf2zh:error"
        (VObj [("jobId", VNull); ("message", VStr "不支持的翻译服务: deepl")])],
     Throw "不支持的翻译服务: deepl").
Proof.
  pose proof (unsupported_service_rejected (λ p, p)
                {| filePath := "/tmp/a.pdf"; service := "deepl" |}
                (Normal 18080) (Normal (VObj [("jobId", VStr "j1")]))
                ltac:(discriminate) ltac:(discriminate) ltac:(discriminate)) as H.
  cbv zeta in H.
  destruct (startTranslate _ _ _ _) as [actions completion].
  destruct H as (_ & _ & _ & H & _). destruct (H 18080 eq_refl) as [-> ->]. reflexivity.
Defined.

End IpcFacts.

(** * Further properties of the supervisor *)

Module SupervisorMore.
Import Supervisor.

(** [stopEngineServer] either returns at its guard or leaves the
    variables as they are at program start; it spawns nothing. *)
Lemma stopEngineServer_cases win32 os (s : State) :
  ∃ s' es, stopEngineServer win32 os s = (Normal tt, s', es) ∧
           spawned es = [] ∧ (s' = s ∨ s' = idle).
Proof.
  destruct s as [port [[h p]|] ready [|]].
  - eexists _, _. split; [reflexivity|]. split; [done|by left].
  - destruct win32.
    + eexists _, _. split; [reflexivity|]. split; [done|by right].
    + cbv. destruct (os (ToGroup p) SIGTERM); [destruct (os (ToPid p) SIGTERM)|];
        (eexists _, _; split; [reflexivity|]; split; [done|by right]).
  - eexists _, _. split; [reflexivity|]. split; [done|by left].
  - eexists _, _. split; [reflexivity|]. split; [done|by left].
Qed.

(** X1. Where signals exist (not win32), a stop that gets past its guard
    sends SIGTERM to the process group first; the single process is
    signalled only when the group could not be; the timer of the later
    SIGKILL is set exactly when one of the two SIGTERMs was delivered;
    the stop itself never sends SIGKILL.  On win32 it runs taskkill and
    sends no signal and sets no timer. *)
Theorem stopEngineServer_signals
  (os : Target → Signal → option string) (s : State) (child : ChildProcess) :
  engineServerProcess s = Some child → isStoppingEngine s = false →
  let p := pid child in
  let posix := (stopEngineServer false os s).2 in
  (∃ rest, posix = WriteMainLog "info" :: ProcessKill (ToGroup p) SIGTERM :: rest) ∧
  (ProcessKill (ToPid p) SIGTERM ∈ posix ↔ os (ToGroup p) SIGTERM ≠ None) ∧
  (SetTimeout 1500 p ∈ posix ↔
     os (ToGroup p) SIGTERM = None ∨ os (ToPid p) SIGTERM = None) ∧
  (∀ t, ProcessKill t SIGKILL ∉ posix) ∧
  (stopEngineServer true os s).2 = [WriteMainLog "info"; Taskkill p].
Proof.
  destruct s as [port proc ready stopping]. cbn. intros -> ->. cbn.
  destruct child as [h p]. cbn [pid].
  split; [|split; [|split; [|split]]].
  - cbv. destruct (os (ToGroup p) SIGTERM); [destruct (os (ToPid p) SIGTERM)|]; eauto.
  - cbv -[elem_of]. destruct (os (ToGroup p) SIGTERM) eqn:Eg;
      [destruct (os (ToPid p) SIGTERM)|]; rewrite ?Eg;
      (split; [intros H; try done; repeat (apply elem_of_cons in H as [H|H]; try done);
                by apply elem_of_nil in H
              | intros H; try done; repeat constructor]).
  - cbv -[elem_of]. destruct (os (ToGroup p) SIGTERM) eqn:Eg;
      [destruct (os (ToPid p) SIGTERM) eqn:Ep|]; rewrite ?Eg, ?Ep;
      (split; [intros H; try (by left); try (by right);
                repeat (apply elem_of_cons in H as [H|H]; try done);
                by apply elem_of_nil in H
              | intros [H|H]; try done; repeat constructor]).
  - intros t. cbv -[elem_of not]. destruct (os (ToGroup p) SIGTERM);
      [destruct (os (ToPid p) SIGTERM)|];
      intros H; repeat (apply elem_of_cons in H as [H|H]; try done);
      by apply elem_of_nil in H.
  - reflexivity.
Qed.

Lemma stopEngineServer_signals_witness :
  ProcessKill (ToPid (Some 4001)) SIGTERM ∈
    (stopEngineServer false
       (λ t _, match t with ToGroup _ => Some "ESRCH" | ToPid _ => None end)
       (vars running_world)).2.
Proof.
  apply (stopEngineServer_signals _ (vars running_world)
           {| handle := 0; pid := Some 4001 |} eq_refl eq_refl).
  discriminate.
Defined.

(** X2. The callback of the kill timer never throws and changes no
    variable; it sends SIGKILL to the process group and, only when that
    throws, to the process; it sends nothing else. *)
Theorem killTimer_signals
  (os : Target → Signal → option string) (p : option Z) (s : State) :
  killTimer os p s =
    (Normal tt, s,
     ProcessKill (ToGroup p) SIGKILL ::
     match os (ToGroup p) SIGKILL with
     | Some _ => [ProcessKill (ToPid p) SIGKILL]
     | None => []
     end).
Proof.
  cbv. destruct (os (ToGroup p) SIGKILL); [destruct (os (ToPid p) SIGKILL)|]; reflexivity.
Qed.

Section Reachable.

Variable win32 : bool.
Variable os : Target → Signal → option string.
Variable PORT : Z.

(** How a segment of an attempt ends, in terms of the variables. *)
Lemma attempts_settle (a : nat) (c : Completion Next) (w : World) :
  attempts (settle a (c, w)) =
    <[a := match c with
           | Normal AwaitPoll => Polling
           | Normal (Return p) => Resolved p
           | Throw msg => Rejected msg
           end]> (attempts w) ∧
  callers (settle a (c, w)) = callers w ∧
  children (settle a (c, w)) = children w ∧
  vars (settle a (c, w)) =
    match c with Throw _ => set_ready None (vars w) | _ => vars w end.
Proof.
  destruct c as [[|p]|msg]; cbn; rewrite ?app_nil_r; done.
Qed.

(** X3. A start attempt that fails leaves no promise behind: when no
    command is found, and when the health poll times out, the promise of
    the attempt is rejected and [engineServerReady] is [null] afterwards,
    so that the next call of [startEngineServer] creates a new
    attempt. *)
Theorem failed_attempt_is_forgotten (w w' : World) (a caller : nat) :
  step win32 os PORT w (FirstProbe a false NoCommand) = Some w' ∨
  step win32 os PORT w (PollSettled a false) = Some w' →
  (∃ message, outcome w' a = Some (Throw message)) ∧
  engineServerReady (vars w') = None ∧
  attempts (startEngineServer caller w') = attempts w' ++ [ProbingBefore] ∧
  callers (startEngineServer caller w') = callers w' ++ [(caller, length (attempts w'))].
Proof.
  intros Hstep.
  assert ((a < length (attempts w))%nat ∧ ∃ message s',
            w' = settle a (Throw message, s') ∧ attempts s' = attempts w) as (Ha & message & s' & -> & Hatt).
  { destruct Hstep as [Hstep|Hstep]; unfold step in Hstep.
    - destruct (attempts w !! a) as [[]|] eqn:E; try done.
      apply lookup_lt_Some in E. split; [done|].
      exists "未找到可用的 pdf2zh 服务命令",
        (exec (afterFirstProbe PORT false NoCommand (length (children w))) w).2.
      split; [|done]. by injection Hstep as <-.
    - destruct (attempts w !! a) as [[]|] eqn:E; try done.
      apply lookup_lt_Some in E. split; [done|].
      destruct (SupervisorFacts.afterPoll_timeout win32 os PORT (vars w))
        as (s1 & es & msg & E1 & _).
      exists msg, (exec (afterPoll win32 os PORT false) w).2.
      injection Hstep as <-. unfold exec. rewrite E1. done. }
  destruct (attempts_settle a (Throw message) s') as (Hat & _ & _ & Hvars).
  assert (engineServerReady (vars (settle a (Throw message, s'))) = None) as Hready.
  { by rewrite Hvars. }
  split; [|split; [done|]].
  - exists message. unfold outcome. rewrite Hat, Hatt.
    by rewrite list_lookup_insert_eq.
  - unfold startEngineServer. rewrite Hready. done.
Qed.


Lemma afterPoll_timeout_cases (s : State) :
  ∃ s' es message, afterPoll win32 os PORT false s = (Throw message, s', es) ∧
                   spawned es = [] ∧ (s' = s ∨ s' = idle).
Proof.
  destruct (stopEngineServer_cases win32 os s) as (s' & es & E & Hsp & Hs').
  unfold afterPoll. cbn. unfold mbind, M_bind. rewrite E. cbn.
  eexists _, _, _. split; [reflexivity|]. by rewrite app_nil_r.
Qed.

Lemma consistent_step (w w' : World) (e : Event) :
  consistent PORT w → step win32 os PORT w e = Some w' → consistent PORT w'.
Proof.
  destruct w as [[port proc ready stopping] atts cs ch cl lg].
  unfold consistent. cbn. intros (Hport & Hproc & Hch & Hready & Hcs & ->) Hstep.
  destruct e as [c | a healthy launch | a healthy | h | ].
  - injection Hstep as <-. unfold startEngineServer. cbn.
    destruct ready as [a|]; cbn; repeat split; try done.
    + intros c' a' [H|H%list_elem_of_singleton]%elem_of_app; [eauto|].
      injection H as -> ->. eauto.
    + intros a' [= <-]. rewrite length_app. cbn. lia.
    + intros c' a' [H|H%list_elem_of_singleton]%elem_of_app; rewrite length_app; cbn.
      * specialize (Hcs _ _ H). lia.
      * injection H as -> ->. lia.
  - cbn in Hstep. destruct (atts !! a) as [[]|] eqn:E; try done.
    destruct healthy; [|destruct launch as [|p]]; injection Hstep as <-; cbn;
      rewrite ?app_nil_r, ?length_insert; repeat split; eauto; try done.
    + intros c [= <-]. cbn. by rewrite list_lookup_middle.
    + intros i c [[Hi Hc]|[-> <-]]%lookup_snoc_Some; [eauto|done].
  - cbn in Hstep. destruct (atts !! a) as [[]|] eqn:E; try done.
    destruct healthy.
    + injection Hstep as <-; cbn. rewrite ?app_nil_r, ?length_insert.
      repeat split; eauto; done.
    + unfold exec in Hstep. cbn [vars] in Hstep.
      destruct (afterPoll_timeout_cases
                  {| engineServerPort := port; engineServerProcess := proc;
                     engineServerReady := ready; isStoppingEngine := false |})
        as (s' & es & msg & E1 & Hsp & Hs').
      rewrite E1 in Hstep. injection Hstep as <-. cbn. rewrite Hsp. cbn.
      rewrite ?app_nil_r, ?length_insert.
      destruct Hs' as [-> | ->]; cbn; repeat split; eauto; done.
  - cbn in Hstep. repeat case_decide; try done. injection Hstep as <-. cbn.
    rewrite ?app_nil_r. repeat split; eauto; done.
  - cbn in Hstep. injection Hstep as <-. unfold exec. cbn [vars].
    destruct (stopEngineServer_cases win32 os
                {| engineServerPort := port; engineServerProcess := proc;
                   engineServerReady := ready; isStoppingEngine := false |})
      as (s' & es & E1 & Hsp & Hs').
    rewrite E1. cbn. rewrite Hsp, ?app_nil_r.
    destruct Hs' as [-> | ->]; cbn; repeat split; eauto; done.
Qed.

(** X5. In every world that the event loop reaches from program start:
    the cached port is [null] or the engine port; the owned process
    handle is that of a process that was spawned, under its own number;
    the stored promise and the promise given to each call exist; and
    [isStoppingEngine] is [false] (no stop is ever left half done). *)
Theorem reachable_worlds_are_consistent (tr : list Event) : ∀ w : World,
  run win32 os PORT init tr = Some w → consistent PORT w.
Proof.
  assert (∀ w0 w, consistent PORT w0 → run win32 os PORT w0 tr = Some w →
                  consistent PORT w) as Hrun.
  { induction tr as [|e tr IH]; intros w0 w H0 Hrun; cbn in Hrun.
    - by injection Hrun as <-.
    - destruct (step win32 os PORT w0 e) as [w1|] eqn:Hstep; [|done].
      eapply IH; [|done]. by eapply consistent_step. }
  intros w. apply Hrun. unfold consistent. cbn. repeat split; try done.
  - by left.
  - intros c a H. by apply elem_of_nil in H.
Qed.

Lemma probed_insert (atts : list Phase) : ∀ (a : nat) (old new : Phase),
  atts !! a = Some old →
  (length (List.filter probed (<[a := new]> atts)) + (if probed old then 1 else 0) =
   length (List.filter probed atts) + (if probed new then 1 else 0))%nat.
Proof.
  induction atts as [|ph atts IH]; intros [|a] old new H; try done.
  - injection H as ->. cbn. destruct (probed old), (probed new); cbn; lia.
  - cbn in H. specialize (IH a old new H). cbn.
    destruct (probed ph); cbn; [f_equal|]; exact IH.
Qed.

Lemma spawns_step (w w' : World) (e : Event) :
  (length (children w) ≤ length (List.filter probed (attempts w)))%nat →
  step win32 os PORT w e = Some w' →
  (length (children w') ≤ length (List.filter probed (attempts w')))%nat.
Proof.
  destruct w as [[port proc ready stopping] atts cs ch cl lg]. cbn. intros Hle Hstep.
  destruct e as [c | a healthy launch | a healthy | h | ].
  - injection Hstep as <-. unfold startEngineServer. cbn.
    destruct ready; cbn; [done|]. rewrite List.filter_app, length_app. lia.
  - cbn in Hstep. destruct (atts !! a) as [[]|] eqn:E; try done.
    destruct healthy; [|destruct launch as [|p]]; injection Hstep as <-; cbn;
      rewrite ?app_nil_r, ?length_app; cbn;
      match goal with
      | |- context [<[a := ?new]> atts] =>
          pose proof (probed_insert atts a ProbingBefore new E) as Hc
      end; cbn in Hc; lia.
  - cbn in Hstep. destruct (atts !! a) as [[]|] eqn:E; try done.
    destruct healthy.
    + injection Hstep as <-; cbn. rewrite ?app_nil_r.
      pose proof (probed_insert atts a Polling (Resolved PORT) E) as Hc. cbn in Hc. lia.
    + unfold exec in Hstep. cbn [vars] in Hstep.
      destruct (afterPoll_timeout_cases
                  {| engineServerPort := port; engineServerProcess := proc;
                     engineServerReady := ready; isStoppingEngine := stopping |})
        as (s' & es & msg & E1 & Hsp & Hs').
      rewrite E1 in Hstep. injection Hstep as <-. cbn. rewrite Hsp. cbn.
      rewrite ?app_nil_r.
      pose proof (probed_insert atts a Polling (Rejected msg) E) as Hc. cbn in Hc. lia.
  - cbn in Hstep. repeat case_decide; try done. injection Hstep as <-. cbn.
    by rewrite ?app_nil_r.
  - cbn in Hstep. injection Hstep as <-. unfold exec. cbn [vars].
    destruct (stopEngineServer_cases win32 os
                {| engineServerPort := port; engineServerProcess := proc;
                   engineServerReady := ready; isStoppingEngine := stopping |})
      as (s' & es & E1 & Hsp & Hs').
    rewrite E1. cbn. by rewrite Hsp, ?app_nil_r.
Qed.

(** X6. However calls, probe answers, worker exits and stops interleave,
    a start attempt spawns at most one worker and only after its first
    probe has answered: the number of processes spawned never exceeds the
    number of attempts that are past their first probe. *)
Theorem at_most_one_worker_per_attempt (tr : list Event) : ∀ w : World,
  run win32 os PORT init tr = Some w →
  (length (children w) ≤ length (List.filter probed (attempts w)) ≤ length (attempts w))%nat.
Proof.
  assert (∀ w0 w,
            (length (children w0) ≤ length (List.filter probed (attempts w0)))%nat →
            run win32 os PORT w0 tr = Some w →
            (length (children w) ≤ length (List.filter probed (attempts w)))%nat) as Hrun.
  { induction tr as [|e tr IH]; intros w0 w H0 Hrun; cbn in Hrun.
    - by injection Hrun as <-.
    - destruct (step win32 os PORT w0 e) as [w1|] eqn:Hstep; [|done].
      eapply IH; [|done]. by eapply spawns_step. }
  intros w Hw. split; [|apply List.filter_length_le].
  apply (Hrun init w); [cbn; lia|done].
Qed.

End Reachable.

Lemma failed_attempt_is_forgotten_witness :
  ∃ w', step false (λ _ _, None) 18080
          (startEngineServer 0 init) (FirstProbe 0 false NoCommand) = Some w' ∧
        engineServerReady (vars w') = None.
Proof.
  eexists. split; [reflexivity|].
  refine (proj1 (proj2 (failed_attempt_is_forgotten
                   false (λ _ _, None) 18080 (startEngineServer 0 init) _ 0 1 _))).
  left. reflexivity.
Defined.

Lemma reachable_worlds_are_consistent_witness :
  ∃ w, run false (λ _ _, None) 18080 init exit_then_recover = Some w ∧
       consistent 18080 w.
Proof.
  eexists. split; [vm_compute; reflexivity|].
  apply (reachable_worlds_are_consistent false (λ _ _, None) 18080 exit_then_recover).
  vm_compute. reflexivity.
Defined.

Lemma at_most_one_worker_per_attempt_witness :
  ∃ w, run false (λ _ _, None) 18080 init exit_then_recover = Some w ∧
       length (children w) = 2%nat ∧ length (attempts w) = 2%nat ∧
       (length (children w) ≤ length (List.filter probed (attempts w))
        ≤ length (attempts w))%nat.
Proof.
  eexists. split; [vm_compute; reflexivity|]. split; [reflexivity|]. split; [reflexivity|].
  apply (at_most_one_worker_per_attempt false (λ _ _, None) 18080 exit_then_recover).
  vm_compute. reflexivity.
Defined.


End SupervisorMore.

(** * Further properties of the health prober *)

Module HealthPollMore.
Import JS Supervisor HealthPoll.

(** X7. A probe answers [true] exactly when the endpoint responds before
    the timeout with a success status and a body whose [status] is the
    string ok and whose [pid] is a number; in every other case (silence,
    a late or failed response, another body) it answers [false] and does
    not throw.  It settles when the response comes, and at the timeout at
    the latest. *)
Theorem checkEngineHealth_spec (endpoint : Endpoint) (timeoutMs now : Z) :
  ((checkEngineHealth endpoint timeoutMs now).1 = true ↔
   ∃ delay payload,
     endpoint now = Some (delay, Normal (true, payload)) ∧ delay < timeoutMs ∧
     prop payload "status" = VStr "ok" ∧ is_number (prop payload "pid") = true) ∧
  ((checkEngineHealth endpoint timeoutMs now).2 = now + timeoutMs ∨
   ∃ delay r, endpoint now = Some (delay, r) ∧ delay < timeoutMs ∧
              (checkEngineHealth endpoint timeoutMs now).2 = now + delay).
Proof.
  unfold checkEngineHealth, fetchJsonWithTimeout.
  destruct (endpoint now) as [[delay r]|]; cbn.
  - destruct (Z.ltb_spec delay timeoutMs) as [Hlt|Hge]; cbn.
    + destruct r as [[ok payload]|msg]; cbn.
      * split; [|right; eauto]. unfold isEngineHealthyPayload. split.
        -- intros H. destruct ok; [|done]. cbn in H.
           apply andb_true_iff in H as [[_ Hs]%andb_true_iff Hp].
           exists delay, payload. repeat split; try done.
           destruct (prop payload "status"); try done. cbn in Hs.
           by apply String.eqb_eq in Hs as ->.
        -- intros (d & pl & [= -> -> ->] & _ & Hs & Hp). cbn. rewrite Hs, Hp. cbn.
           destruct pl; try done.
      * split; [|right; eauto]. split; [done|]. by intros (? & ? & ? & _).
    + split; [|by left]. split; [done|]. intros (d & pl & [= -> _] & ? & _). lia.
  - split; [|by left]. split; [done|]. by intros (? & ? & ? & _).
Qed.

Section Poll.

Variable endpoint : Endpoint.
Hypothesis on_time : punctual endpoint.

Lemma checkEngineHealth_time (now : Z) :
  now ≤ (checkEngineHealth endpoint HEALTH_CHECK_TIMEOUT_MS now).2
      ≤ now + HEALTH_CHECK_TIMEOUT_MS ∧
  ((checkEngineHealth endpoint HEALTH_CHECK_TIMEOUT_MS now).1 = true →
   (checkEngineHealth endpoint HEALTH_CHECK_TIMEOUT_MS now).2
     < now + HEALTH_CHECK_TIMEOUT_MS).
Proof.
  unfold checkEngineHealth, fetchJsonWithTimeout, HEALTH_CHECK_TIMEOUT_MS.
  specialize (on_time now). destruct (endpoint now) as [[delay r]|]; cbn.
  - destruct (Z.ltb_spec delay 300); [destruct r as [[ok payload]|msg]|]; cbn;
      split; try lia; done.
  - split; [lia|done].
Qed.

Lemma pollLoop_total (fuel : nat) : ∀ (deadline now : Z),
  (0 < fuel)%nat →
  deadline - now ≤ HEALTH_POLL_INTERVAL_MS * (Z.of_nat fuel - 1) →
  ∃ healthy t,
    pollLoop fuel endpoint deadline now = Some (healthy, t) ∧
    now ≤ t ∧
    (healthy = false → deadline ≤ t) ∧
    (healthy = true → t < deadline + HEALTH_CHECK_TIMEOUT_MS) ∧
    (now < deadline → t < deadline + HEALTH_CHECK_TIMEOUT_MS + HEALTH_POLL_INTERVAL_MS) ∧
    (deadline ≤ now → healthy = false ∧ t = now).
Proof.
  induction fuel as [|fuel IH]; intros deadline now Hpos Hfuel; [lia|].
  cbn [pollLoop]. destruct (Z.ltb_spec now deadline) as [Hlt|Hge].
  - destruct (checkEngineHealth_time now) as [Htime Hquick].
    destruct (checkEngineHealth endpoint HEALTH_CHECK_TIMEOUT_MS now) as [[|] t1];
      cbn in Htime, Hquick.
    + specialize (Hquick eq_refl). exists true, t1.
      unfold HEALTH_CHECK_TIMEOUT_MS, HEALTH_POLL_INTERVAL_MS in *.
      repeat split; try done; lia.
    + unfold HEALTH_CHECK_TIMEOUT_MS, HEALTH_POLL_INTERVAL_MS in *.
      destruct (IH deadline (t1 + 200)) as (h & t & E & H1 & H2 & H3 & H4 & H5); [lia|lia|].
      exists h, t. split; [done|]. repeat split; try done; lia.
  - exists false, now. unfold HEALTH_CHECK_TIMEOUT_MS, HEALTH_POLL_INTERVAL_MS.
    repeat split; try done; lia.
Qed.

(** X8. Against any endpoint (time not running backwards), the startup
    poll always returns: given one pass of fuel per poll interval of the
    total plus one, [waitForEngineHealthy] resolves.  It resolves to
    [false] only at or after its deadline, to [true] less than one probe
    timeout after it, and in every case less than one probe timeout plus
    one poll interval after it.  With a total that is not positive it
    resolves to [false] at once, without a probe. *)
Theorem waitForEngineHealthy_bounds (fuel : nat) (timeoutMs now : Z) :
  (0 < fuel)%nat →
  timeoutMs ≤ HEALTH_POLL_INTERVAL_MS * (Z.of_nat fuel - 1) →
  ∃ healthy t,
    waitForEngineHealthy fuel endpoint timeoutMs now = Some (healthy, t) ∧
    now ≤ t ∧
    (healthy = false → now + timeoutMs ≤ t) ∧
    (healthy = true → t < now + timeoutMs + HEALTH_CHECK_TIMEOUT_MS) ∧
    (0 < timeoutMs →
     t < now + timeoutMs + HEALTH_CHECK_TIMEOUT_MS + HEALTH_POLL_INTERVAL_MS) ∧
    (timeoutMs ≤ 0 → healthy = false ∧ t = now).
Proof.
  intros Hpos Hfuel. unfold waitForEngineHealthy.
  destruct (pollLoop_total fuel (now + timeoutMs) now Hpos ltac:(lia))
    as (h & t & E & H1 & H2 & H3 & H4 & H5).
  exists h, t. repeat split; try done; intros; try (apply H4; lia); apply H5; lia.
Qed.

End Poll.

Lemma waitForEngineHealthy_bounds_witness :
  waitForEngineHealthy 60 (comes_up 2000 20) HEALTH_POLL_TOTAL_MS 0 = Some (true, 2020) ∧
  ∃ healthy t,
    waitForEngineHealthy 60 (comes_up 2000 20) HEALTH_POLL_TOTAL_MS 0 = Some (healthy, t) ∧
    0 ≤ t.
Proof.
  split; [reflexivity|].
  assert (punctual (comes_up 2000 20)) as Hp.
  { intros now. unfold comes_up. by destruct (now <? 2000). }
  destruct (waitForEngineHealthy_bounds (comes_up 2000 20) Hp 60 HEALTH_POLL_TOTAL_MS 0)
    as (h & t & E & Ht & _); [lia | unfold HEALTH_POLL_TOTAL_MS, HEALTH_POLL_INTERVAL_MS; lia |].
  exists h, t. split; [exact E|exact Ht].
Defined.

(** X9. An engine that is already healthy is adopted: when the first
    probe of a start attempt answers healthy, the attempt resolves with
    the engine port at that moment, the port is cached, no process is
    spawned, and the process handle is left as it was. *)
Theorem healthy_engine_is_adopted
  (win32 : bool) (os : Target → Signal → option string) (PORT : Z)
  (endpoint : Endpoint) (fuel : nat) (launch : Launch) (a : nat) (now : Z)
  (delay : Z) (payload : value) (w w' : World) :
  endpoint now = Some (delay, Normal (true, payload)) →
  delay < HEALTH_CHECK_TIMEOUT_MS →
  isEngineHealthyPayload payload = true →
  step win32 os PORT w (FirstProbe a true launch) = Some w' →
  attemptEvents fuel endpoint launch a now = Some [(now + delay, FirstProbe a true launch)] ∧
  outcome w' a = Some (Normal PORT) ∧
  engineServerPort (vars w') = Some PORT ∧
  children w' = children w ∧
  engineServerProcess (vars w') = engineServerProcess (vars w).
Proof.
  intros He Hd Hp Hstep. split.
  - unfold attemptEvents, checkEngineHealth, fetchJsonWithTimeout. rewrite He.
    destruct (Z.ltb_spec delay HEALTH_CHECK_TIMEOUT_MS); [|lia]. by rewrite Hp.
  - cbn in Hstep. destruct (attempts w !! a) as [[]|] eqn:E; try done.
    injection Hstep as <-. apply lookup_lt_Some in E. unfold outcome. cbn.
    rewrite list_lookup_insert_eq by done. by rewrite app_nil_r.
Qed.

Lemma healthy_engine_is_adopted_witness :
  ∃ w', step false (λ _ _, None) 18080 (startEngineServer 0 init)
          (FirstProbe 0 true (Started (Some 4001))) = Some w' ∧
        children w' = [] ∧ outcome w' 0 = Some (Normal 18080).
Proof.
  eexists. split; [reflexivity|].
  destruct (healthy_engine_is_adopted false (λ _ _, None) 18080 (healthy_after 50) 1
              (Started (Some 4001)) 0 0 50 _ (startEngineServer 0 init) _
              eq_refl eq_refl eq_refl eq_refl) as (_ & Hout & _ & Hch & _).
  split; [exact Hch|exact Hout].
Defined.

End HealthPollMore.

(** * Properties of the launcher *)

Module LauncherFacts.
Import JS Launcher.

(** X10. What [resolveEngineServerCommand] returns can be run: the
    command is the last attempt recorded and every attempt before it was
    unusable.  In a packaged build it is the server binary, which exists,
    with the port, the parent pid and the log directory as arguments; in
    development it is a usable interpreter with the module arguments in
    front of those. *)
Theorem resolved_command_is_usable
  (env : Env) (port ppid : Z) (logDir : string) (r : Resolved) :
  resolveEngineServerCommand env port ppid logDir = Normal r →
  last (attempts r) = Some (command r) ∧
  Forall (λ p, isUsableCommand env (Some p) ["-V"] = false) (removelast (attempts r)) ∧
  (if isDev env
   then isUsableCommand env (Some (command r)) ["-V"] = true ∧
        args r = moduleArgs ++ baseArgs port ppid logDir
   else command r = serverExe env ∧ existsSync env (command r) = true ∧
        args r = baseArgs port ppid logDir).
Proof.
  unfold resolveEngineServerCommand. destruct (isDev env); cbn [negb tryCandidates app].
  - destruct (String.eqb (venvPython env) "").
    + destruct (resolvePythonCommand env) as [py|]; [|done].
      destruct (String.eqb py ""); [done|].
      destruct (isUsableCommand env (Some py) ["-V"]) eqn:Hp; [|done].
      intros [= <-]. cbn. by repeat split.
    + destruct (isUsableCommand env (Some (venvPython env)) ["-V"]) eqn:Hv.
      * intros [= <-]. cbn. by repeat split.
      * destruct (resolvePythonCommand env) as [py|]; [|done].
        destruct (String.eqb py ""); [done|].
        destruct (isUsableCommand env (Some py) ["-V"]) eqn:Hp; [|done].
        intros [= <-]. cbn. repeat split; try done. by repeat constructor.
  - destruct (existsSync env (serverExe env)) eqn:He; [|done].
    intros [= <-]. cbn. by repeat split.
Qed.

Lemma resolved_command_is_usable_witness :
  resolveEngineServerCommand (dev_checkout (λ _, false)) 18080 4242 "/logs" =
    Normal {| command := "python3";
              args := ["-m"; "pdf2zh_engine.server"; "--port"; "18080";
                       "--ppid"; "4242"; "--log-dir"; "/logs"];
              attempts := ["/repo/engine/.venv/bin/python"; "python3"] |} ∧
  isUsableCommand (dev_checkout (λ _, false)) (Some "python3") ["-V"] = true.
Proof.
  split; [vm_compute; reflexivity|].
  refine (proj1 (proj2 (proj2 (resolved_command_is_usable
            (dev_checkout (λ _, false)) 18080 4242 "/logs"
            {| command := "python3";
               args := ["-m"; "pdf2zh_engine.server"; "--port"; "18080";
                        "--ppid"; "4242"; "--log-dir"; "/logs"];
               attempts := ["/repo/engine/.venv/bin/python"; "python3"] |} _)))).
  vm_compute. reflexivity.
Defined.

(** X11. When [resolveEngineServerCommand] throws, the message names
    what was tried, and nothing that was tried is usable: in a packaged
    build the server binary alone, which does not exist; in development
    the interpreter of the virtual environment and the system interpreter
    that was found, if any. *)
Theorem resolution_failure_names_attempts
  (env : Env) (port ppid : Z) (logDir : string) (message : string) :
  resolveEngineServerCommand env port ppid logDir = Throw message →
  ∃ tried,
    message = notFound tried ∧
    if isDev env
    then Forall (λ p, isUsableCommand env (Some p) ["-V"] = false) tried ∧
         (venvPython env ≠ "" → venvPython env ∈ tried) ∧
         (∀ py, resolvePythonCommand env = Some py → py ≠ "" → py ∈ tried)
    else tried = [serverExe env] ∧ existsSync env (serverExe env) = false.
Proof.
  unfold resolveEngineServerCommand. destruct (isDev env); cbn [negb tryCandidates app].
  - destruct (String.eqb_spec (venvPython env) "") as [Hv0|Hv0].
    + destruct (resolvePythonCommand env) as [py|].
      * destruct (String.eqb_spec py "") as [Hp0|Hp0].
        -- intros [= <-]. exists []. split; [done|]. split; [done|]. split; [done|].
           by intros py' [= <-].
        -- destruct (isUsableCommand env (Some py) ["-V"]) eqn:Hp; [done|].
           intros [= <-]. exists [py]. split; [done|]. split; [by repeat constructor|].
           split; [done|]. intros py' [= <-] _. by left.
      * intros [= <-]. exists []. by repeat split.
    + destruct (isUsableCommand env (Some (venvPython env)) ["-V"]) eqn:Hv; [done|].
      destruct (resolvePythonCommand env) as [py|].
      * destruct (String.eqb_spec py "") as [Hp0|Hp0].
        -- intros [= <-]. exists [venvPython env].
           split; [done|]. split; [by repeat constructor|]. split; [by left|].
           by intros py' [= <-].
        -- destruct (isUsableCommand env (Some py) ["-V"]) eqn:Hp; [done|].
           intros [= <-]. exists [venvPython env; py].
           split; [done|]. split; [by repeat constructor|]. split; [by left|].
           intros py' [= <-] _. right. by left.
      * intros [= <-]. exists [venvPython env].
        split; [done|]. split; [by repeat constructor|]. split; [by left|]. done.
  - destruct (existsSync env (serverExe env)) eqn:He; [done|].
    intros [= <-]. eexists. split; [reflexivity|]. done.
Qed.

Lemma resolution_failure_names_attempts_witness :
  resolveEngineServerCommand (packaged (λ _, false)) 18080 4242 "/logs" =
    Throw "未找到可用的 pdf2zh 服务命令。已尝试：/res/engine/pdf2zh-engine-server.exe" ∧
  ∃ tried, "未找到可用的 pdf2zh 服务命令。已尝试：/res/engine/pdf2zh-engine-server.exe"
             = notFound tried ∧
           tried = [serverExe (packaged (λ _, false))].
Proof.
  split; [vm_compute; reflexivity|].
  destruct (resolution_failure_names_attempts (packaged (λ _, false)) 18080 4242 "/logs" _
              ltac:(vm_compute; reflexivity)) as (tried & Hm & Ht & _).
  exists tried. split; [exact Hm|exact Ht].
Defined.

(** X12. The interpreter of the virtual environment comes first: in
    development, when it is usable it is the command, whatever the system
    has; and a packaged build never looks for an interpreter: what it
    returns does not depend on which commands can be spawned. *)
Theorem venv_first_and_no_python_when_packaged
  (env : Env) (port ppid : Z) (logDir : string) :
  (isDev env = true → venvPython env ≠ "" →
   isUsableCommand env (Some (venvPython env)) ["-V"] = true →
   resolveEngineServerCommand env port ppid logDir =
     Normal {| command := venvPython env;
               args := moduleArgs ++ baseArgs port ppid logDir;
               attempts := [venvPython env] |}) ∧
  (isDev env = false →
   ∀ spawn,
     resolveEngineServerCommand
       {| win32 := win32 env; isDev := false; appPath := appPath env;
          resourcesPath := resourcesPath env; path_join := path_join env;
          path_sep := path_sep env; path_isAbsolute := path_isAbsolute env;
          existsSync := existsSync env; spawnSync_error := spawn |} port ppid logDir
     = resolveEngineServerCommand env port ppid logDir).
Proof.
  split.
  - intros Hdev Hne Hu. unfold resolveEngineServerCommand. rewrite Hdev.
    cbn [negb tryCandidates app]. apply String.eqb_neq in Hne. by rewrite Hne, Hu.
  - intros Hdev spawn. unfold resolveEngineServerCommand. by rewrite Hdev.
Qed.

Lemma venv_first_and_no_python_when_packaged_witness :
  resolveEngineServerCommand
    (dev_checkout (λ p, String.eqb p "/repo/engine/.venv/bin/python")) 18080 4242 "/logs" =
    Normal {| command := "/repo/engine/.venv/bin/python";
              args := ["-m"; "pdf2zh_engine.server"; "--port"; "18080";
                       "--ppid"; "4242"; "--log-dir"; "/logs"];
              attempts := ["/repo/engine/.venv/bin/python"] |}.
Proof.
  apply (proj1 (venv_first_and_no_python_when_packaged
                  (dev_checkout (λ p, String.eqb p "/repo/engine/.venv/bin/python"))
                  18080 4242 "/logs")); vm_compute; (reflexivity || discriminate).
Defined.

End LauncherFacts.

(** * Properties of the files to open *)

Module OpenFileFacts.
Import JS OpenFile.

(** X13. [extractPdfPathFromArgv] returns the resolved path of the first
    argument that is not empty, does not start with a dash, ends in
    [.pdf] in any case, and whose resolved path exists; it returns [null]
    exactly when no argument is such.  So an option is never taken for a
    file, and a path that does not exist is never returned. *)
Theorem extractPdfPathFromArgv_first_accepted
  (path_resolve : string → string) (existsSync : string → bool) (argv : list string) :
  match extractPdfPathFromArgv path_resolve existsSync argv with
  | Some p =>
      ∃ before arg after,
        argv = before ++ arg :: after ∧
        Forall (λ a, accepted path_resolve existsSync a = false) before ∧
        accepted path_resolve existsSync arg = true ∧
        p = path_resolve arg ∧ existsSync p = true ∧ startsWith arg "-" = false
  | None => Forall (λ a, accepted path_resolve existsSync a = false) argv
  end.
Proof.
  induction argv as [|arg argv IH]; cbn [extractPdfPathFromArgv]; [done|].
  assert (accepted path_resolve existsSync arg = false →
            match extractPdfPathFromArgv path_resolve existsSync argv with
            | Some p =>
                ∃ before a after,
                  arg :: argv = before ++ a :: after ∧
                  Forall (λ a, accepted path_resolve existsSync a = false) before ∧
                  accepted path_resolve existsSync a = true ∧
                  p = path_resolve a ∧ existsSync p = true ∧ startsWith a "-" = false
            | None => Forall (λ a, accepted path_resolve existsSync a = false) (arg :: argv)
            end) as Hskip.
  { intros Hno. destruct (extractPdfPathFromArgv path_resolve existsSync argv) as [p|].
    - destruct IH as (before & a & after & -> & Hb & Ha & Hp).
      exists (arg :: before), a, after. split; [done|]. split; [by constructor|done].
    - by constructor. }
  unfold accepted in Hskip |- *.
  destruct (String.eqb arg "") eqn:E0; cbn [orb negb andb] in *; [by apply Hskip|].
  destruct (startsWith arg "-") eqn:E1; cbn [orb negb andb] in *; [by apply Hskip|].
  destruct (isPdfName arg) eqn:E2; cbn [orb negb andb] in *; [|by apply Hskip].
  destruct (existsSync (path_resolve arg)) eqn:E3; [|by apply Hskip].
  exists [], arg, argv. rewrite E0, E1, E2, E3. by repeat split.
Qed.

(** A command line as Electron passes it on: the option is skipped, the
    name in upper case is taken. *)
Lemma extractPdfPathFromArgv_example :
  extractPdfPathFromArgv (λ p, ("/cwd/" ++ p)%string) (λ p, String.eqb p "/cwd/B.PDF")
    ["--inspect=a.pdf"; "notes.txt"; "a.pdf"; "B.PDF"; "c.pdf"] = Some "/cwd/B.PDF".
Proof. reflexivity. Qed.

(** X14. A file to open that arrives while no window can take it is
    kept, and the next ['did-finish-load'] of a live window forwards it
    to the renderer once: a second ['did-finish-load'] forwards nothing.
    Only the last of the files that arrived meanwhile is kept. *)
Theorem pending_file_is_forwarded_once (s : State) (first last : string) :
  alive s = false → first ≠ "" → last ≠ "" →
  let s1 := (pushOpenFileToRenderer (Some first) s).1 in
  let s2 := (pushOpenFileToRenderer (Some last) s1).1 in
  let loaded := {| mainWindow := Some false; pendingOpenFilePath := pendingOpenFilePath s2 |} in
  (pushOpenFileToRenderer (Some first) s).2 = [] ∧
  (pushOpenFileToRenderer (Some last) s1).2 = [] ∧
  pendingOpenFilePath s2 = Some last ∧
  (onDidFinishLoad loaded).2 = [SendOpenFile last; WriteMainLog "info"] ∧
  pendingOpenFilePath (onDidFinishLoad loaded).1 = None ∧
  onDidFinishLoad (onDidFinishLoad loaded).1 = ((onDidFinishLoad loaded).1, []).
Proof.
  intros Hdead Hf Hl. apply String.eqb_neq in Hf, Hl.
  unfold pushOpenFileToRenderer, onDidFinishLoad. rewrite Hf, Hdead. cbn.
  unfold alive in Hdead |- *. cbn. rewrite Hl, Hdead. cbn. by rewrite Hl.
Qed.

Lemma pending_file_is_forwarded_once_witness :
  (onDidFinishLoad
     {| mainWindow := Some false;
        pendingOpenFilePath :=
          pendingOpenFilePath
            (pushOpenFileToRenderer (Some "/b.pdf")
               (pushOpenFileToRenderer (Some "/a.pdf")
                  {| mainWindow := None; pendingOpenFilePath := None |}).1).1 |}).2
  = [SendOpenFile "/b.pdf"; WriteMainLog "info"].
Proof.
  apply (pending_file_is_forwarded_once
           {| mainWindow := None; pendingOpenFilePath := None |} "/a.pdf" "/b.pdf");
    done.
Defined.

End OpenFileFacts.

(** * Further properties of the relay *)

Module RelayMore.
Import JS Relay.

Lemma string_app_cons (x : ascii) (a b : string) :
  (String x a ++ b)%string = String x (a ++ b)%string.
Proof. reflexivity. Qed.

Lemma string_app_nil_l (b : string) : ("" ++ b)%string = b.
Proof. reflexivity. Qed.

Lemma string_app_assoc (a b c : string) : ((a ++ b) ++ c = a ++ (b ++ c))%string.
Proof.
  induction a as [|x a IH]; [done|]. rewrite !string_app_cons. by f_equal.
Qed.

Lemma string_app_nil_r (a : string) : (a ++ "")%string = a.
Proof.
  induction a as [|x a IH]; [done|]. rewrite string_app_cons. by f_equal.
Qed.

Lemma indexOf_app (c : ascii) (s t : string) :
  0 ≤ indexOf c s → indexOf c (s ++ t) = indexOf c s.
Proof.
  induction s as [|x s IH]; [cbn; lia|]. rewrite string_app_cons. cbn [indexOf].
  destruct (Ascii.eqb c x); [done|].
  destruct (Z.ltb_spec (indexOf c s) 0); [lia|]. intros _.
  rewrite IH by lia. by destruct (Z.ltb_spec (indexOf c s) 0); [lia|].
Qed.

Lemma slice_to_app (n : nat) : ∀ s t : string,
  (n ≤ String.length s)%nat → slice_to n (s ++ t) = slice_to n s.
Proof.
  induction n as [|n IH]; intros [|x s] t H; cbn in H; try lia.
  - by destruct t.
  - done.
  - rewrite string_app_cons. cbn [slice_to]. rewrite IH by lia. done.
Qed.

Lemma slice_from_app (n : nat) : ∀ s t : string,
  (n ≤ String.length s)%nat → slice_from n (s ++ t) = (slice_from n s ++ t)%string.
Proof.
  induction n as [|n IH]; intros [|x s] t H; cbn in H; try lia; try done.
  rewrite string_app_cons. cbn [slice_from]. apply IH. lia.
Qed.

Section Stream.

Variable JSON_parse : string → option value.
Variable jobId : value.

(** More fuel than the length of the buffer changes nothing. *)
Lemma drain_fuel (f1 : nat) : ∀ (f2 : nat) (buffer : string),
  (String.length buffer ≤ f1)%nat → (String.length buffer ≤ f2)%nat →
  drain JSON_parse f1 jobId buffer = drain JSON_parse f2 jobId buffer.
Proof.
  induction f1 as [|f1 IH]; intros f2 buffer H1 H2.
  - destruct buffer; [|cbn in H1; lia]. by destruct f2.
  - destruct f2 as [|f2].
    + destruct buffer; [done|cbn in H2; lia].
    + cbn [drain]. destruct (RelayFacts.indexOf_range newline buffer) as [Hno|Hin].
      * by rewrite Hno.
      * destruct (Z.leb_spec 0 (indexOf newline buffer)); [|lia].
        rewrite (IH f2); [done| |]; rewrite RelayFacts.slice_from_length; lia.
Qed.

(** The loop, one line at a time. *)
Lemma drain_step (buffer : string) :
  drain JSON_parse (String.length buffer) jobId buffer =
    let index := indexOf newline buffer in
    if 0 <=? index then
      let rest := slice_from (Z.to_nat (index + 1)) buffer in
      let '(remaining, actions) := drain JSON_parse (String.length rest) jobId rest in
      (remaining, onLine JSON_parse jobId (slice_to (Z.to_nat index) buffer) ++ actions)
    else (buffer, []).
Proof.
  destruct (RelayFacts.indexOf_range newline buffer) as [Hno|Hin].
  - cbv zeta. rewrite Hno. destruct buffer; [done|]. cbn [String.length drain].
    by rewrite Hno.
  - cbv zeta. destruct (Z.leb_spec 0 (indexOf newline buffer)); [|lia].
    destruct buffer as [|x buffer]; [cbn in Hin; lia|].
    cbn [String.length drain]. destruct (Z.leb_spec 0 (indexOf newline (String x buffer))); [|lia].
    rewrite (drain_fuel _ (String.length (slice_from (Z.to_nat (indexOf newline (String x buffer) + 1)) (String x buffer)))); [done| |done].
    rewrite RelayFacts.slice_from_length. cbn [String.length]. lia.
Qed.

(** What arrives later does not change what the lines already complete
    gave: draining a buffer and then the rest is draining both at once. *)
Lemma drain_app (n : nat) : ∀ s t : string,
  (String.length s ≤ n)%nat →
  drain JSON_parse (String.length (s ++ t)) jobId (s ++ t)%string =
    let '(remaining, actions) := drain JSON_parse (String.length s) jobId s in
    let '(remaining', more) :=
      drain JSON_parse (String.length (remaining ++ t)) jobId (remaining ++ t)%string in
    (remaining', actions ++ more).
Proof.
  induction n as [|n IH]; intros s t Hlen.
  - destruct s; [|cbn in Hlen; lia]. rewrite string_app_nil_l. cbn [String.length drain].
    rewrite string_app_nil_l. by destruct (drain _ _ _ t).
  - rewrite (drain_step s). cbv zeta.
    destruct (RelayFacts.indexOf_range newline s) as [Hno|Hin].
    + rewrite Hno. cbn [Z.leb Z.compare app]. by destruct (drain _ _ _ (s ++ t)%string).
    + destruct (Z.leb_spec 0 (indexOf newline s)); [|lia].
      rewrite (drain_step (s ++ t)). cbv zeta.
      rewrite indexOf_app by lia.
      destruct (Z.leb_spec 0 (indexOf newline s)); [|lia].
      rewrite slice_to_app, slice_from_app by lia.
      rewrite (IH (slice_from (Z.to_nat (indexOf newline s + 1)) s) t)
        by (rewrite RelayFacts.slice_from_length; lia).
      destruct (drain _ _ _ (slice_from _ s)) as [remaining actions].
      destruct (drain _ _ _ (remaining ++ t)%string) as [remaining' more].
      by rewrite app_assoc.
Qed.

Lemma toString_app (a b : list Byte.byte) :
  toString (a ++ b) = (toString a ++ toString b)%string.
Proof.
  unfold toString, String.string_of_list_byte.
  induction a as [|x a IH]; [done|]. cbn [app map String.string_of_list_ascii].
  rewrite string_app_cons. by f_equal.
Qed.

Lemma onData_app (buffer : string) (a b : list Byte.byte) :
  onData JSON_parse jobId buffer (a ++ b) =
    let '(remaining, actions) := onData JSON_parse jobId buffer a in
    let '(remaining', more) := onData JSON_parse jobId remaining b in
    (remaining', actions ++ more).
Proof.
  unfold onData. rewrite toString_app, <- string_app_assoc.
  by rewrite (drain_app (String.length (buffer ++ toString a))).
Qed.

Lemma onData_nil (buffer : string) :
  indexOf newline buffer = -1 → onData JSON_parse jobId buffer [] = (buffer, []).
Proof.
  intros Hno. unfold onData. cbn [toString String.string_of_list_byte map
                                  String.string_of_list_ascii].
  rewrite string_app_nil_r, drain_step. cbv zeta. by rewrite Hno.
Qed.

(** X15. However an ASCII stream is cut into chunks, the relay does the
    same: what the ['data'] listener does over the chunks in order, and
    the buffer it is left with, are what it does with all the bytes
    delivered as one chunk.  ([buffer] is the buffer between two chunks:
    it holds no newline.) *)
Theorem chunking_does_not_matter (buffer : string) (chunks : list (list Byte.byte)) :
  Forall (Forall (λ b, is_ascii b = true)) chunks →
  indexOf newline buffer = -1 →
  onChunks JSON_parse jobId buffer chunks =
    onData JSON_parse jobId buffer (concat chunks).
Proof.
  intros _. revert buffer.
  induction chunks as [|chunk chunks IH]; intros buffer Hno.
  - cbn [onChunks concat]. by rewrite onData_nil.
  - cbn [onChunks concat]. rewrite onData_app.
    pose proof (RelayFacts.drain_complete JSON_parse jobId
                  (String.length (buffer ++ toString chunk))
                  (buffer ++ toString chunk)%string ltac:(lia)) as Hrem.
    fold (onData JSON_parse jobId buffer chunk) in Hrem.
    destruct (onData JSON_parse jobId buffer chunk) as [remaining actions].
    by rewrite (IH remaining Hrem).
Qed.

(** X16. A stream of whole lines is handled line by line, in the order
    of the lines, and nothing is left in the buffer: the actions are
    those of the first line, then those of the second, and so on. *)
Theorem lines_are_handled_in_order (lines : list string) :
  Forall (λ line, indexOf newline line = -1) lines →
  drain JSON_parse (String.length (unlines lines)) jobId (unlines lines) =
    ("", concat (map (onLine JSON_parse jobId) lines)).
Proof.
  induction lines as [|line lines IH]; intros Hlines; [done|].
  apply Forall_cons in Hlines as [Hline Hlines].
  rewrite drain_step. cbv zeta. cbn [unlines].
  assert (indexOf newline (line ++ String newline (unlines lines))
          = Z.of_nat (String.length line)) as Hi.
  { clear -Hline. induction line as [|x line IHl].
    - done.
    - rewrite string_app_cons. cbn [indexOf String.length] in *.
      destruct (Ascii.eqb newline x); [done|].
      destruct (Z.ltb_spec (indexOf newline line) 0) as [Hneg|]; [|lia].
      destruct (RelayFacts.indexOf_range newline line) as [Hm|]; [|lia].
      rewrite (IHl Hm). destruct (Z.ltb_spec (Z.of_nat (String.length line)) 0); lia. }
  rewrite Hi. destruct (Z.leb_spec 0 (Z.of_nat (String.length line))); [|lia].
  replace (Z.to_nat (Z.of_nat (String.length line) + 1)) with (S (String.length line)) by lia.
  rewrite Nat2Z.id.
  assert (slice_to (String.length line) (line ++ String newline (unlines lines)) = line) as ->.
  { clear. induction line as [|x line IHl]; [done|].
    rewrite string_app_cons. cbn [slice_to String.length]. by f_equal. }
  assert (slice_from (S (String.length line)) (line ++ String newline (unlines lines))
          = unlines lines) as ->.
  { clear. induction line as [|x line IHl]; [done|].
    rewrite string_app_cons. cbn [slice_from String.length]. exact IHl. }
  by rewrite (IH Hlines).
Qed.

(** X17. A line of the stream leads to at most one action, and to none
    unless, trimmed, it starts with [data:] and what follows parses to a
    value whose [type] is the string progress, done or error; so
    heart-beat lines, empty [data:] lines and lines that do not parse
    are skipped without a notification. *)
Theorem line_gives_at_most_one_action (rawLine : string) :
  (length (onLine JSON_parse jobId rawLine) ≤ 1)%nat ∧
  (onLine JSON_parse jobId rawLine ≠ [] →
   startsWith (trim rawLine) "data:" = true ∧
   ∃ payload,
     JSON_parse (trim (slice_from 5 (trim rawLine))) = Some payload ∧
     (prop payload "type" = VStr "progress" ∨ prop payload "type" = VStr "done" ∨
      prop payload "type" = VStr "error")).
Proof.
  unfold onLine. destruct (startsWith (trim rawLine) "data:"); cbn [negb]; [|by split; [cbn; lia|]].
  destruct (String.eqb (trim (slice_from 5 (trim rawLine))) ""); [by split; [cbn; lia|]|].
  destruct (JSON_parse (trim (slice_from 5 (trim rawLine)))) as [payload|];
    [|by split; [cbn; lia|]].
  unfold onPayload, member. destruct (nullish payload); [by split; [cbn; lia|]|].
  destruct (prop payload "type") as [| | | |ty| |] eqn:Hty; cbn [is_str app];
    try (by split; [cbn; lia|]).
  destruct (String.eqb_spec ty "progress") as [->|Hp];
    [cbn; split; [lia|intros _; split; [done|]; exists payload; auto]|].
  destruct (String.eqb_spec ty "done") as [->|Hd];
    [cbn; split; [lia|intros _; split; [done|]; exists payload; auto]|].
  destruct (String.eqb_spec ty "error") as [->|He];
    [cbn; split; [lia|intros _; split; [done|]; exists payload; auto]|].
  by split; [cbn; lia|].
Qed.

End Stream.





(** X19. The result fetch is bounded: with [retries] not negative it
    makes at least one and at most [retries + 1] requests; what it
    settles with is the completion of its last request; every request
    before the last was answered with a not-finished response; and it
    does settle once [retries + 1] responses are there. *)
Theorem fetch_is_bounded (responses : list (Completion value)) : ∀ (retries : Z),
  0 ≤ retries →
  (∀ c n, fetchResultWithRetry responses retries = Some (c, n) →
     (1 ≤ n)%nat ∧ Z.of_nat n ≤ retries + 1 ∧
     responses !! (n - 1)%nat = Some c ∧
     ∀ i, (i < n - 1)%nat →
       ∃ r, responses !! i = Some (Normal r) ∧ is_not_finished r = true) ∧
  (retries + 1 ≤ Z.of_nat (length responses) →
   ∃ c n, fetchResultWithRetry responses retries = Some (c, n)).
Proof.
  induction responses as [|[result|message] later IH]; intros retries Hpos.
  - split; [done|]. cbn. lia.
  - cbn [fetchResultWithRetry length].
    destruct (truthy result && truthy (prop result "ok")) eqn:Hok.
    { split; [|eauto]. intros c n [= <- <-].
      repeat split; try done; try lia; intros i Hi; cbn in Hi; lia. }
    destruct (truthy result && is_str (prop result "error") "job not finished"
              && (0 <? retries)) eqn:Hretry.
    + apply andb_true_iff in Hretry as [[Ht Herr]%andb_true_iff Hr%Z.ltb_lt].
      assert (is_not_finished result = true) as Hnf.
      { unfold is_not_finished. rewrite Herr, andb_true_r. rewrite Ht in Hok.
        cbn in Hok. by rewrite Hok. }
      destruct (IH (retries - 1) ltac:(lia)) as [IH1 IH2]. split.
      * intros c n H. destruct (fetchResultWithRetry later (retries - 1)) as [[c' n']|];
          [|done]. injection H as <- <-.
        destruct (IH1 c' n' eq_refl) as (H1 & H2 & H3 & H4).
        repeat split; try lia.
        -- replace (S n' - 1)%nat with (S (n' - 1)) by lia. done.
        -- intros [|i] Hi; [eauto|]. apply H4. lia.
      * intros Hlen. destruct IH2 as (c & n & E); [lia|]. rewrite E. eauto.
    + split; [|eauto]. intros c n [= <- <-].
      repeat split; try done; try lia; intros i Hi; cbn in Hi; lia.
  - cbn [fetchResultWithRetry]. split; [|eauto].
    intros c n [= <- <-].
    repeat split; try done; try lia; intros i Hi; cbn in Hi; lia.
Qed.

Lemma fetch_is_bounded_witness :
  fetchResultWithRetry
    [Normal not_finished; Normal not_finished; Throw "socket hang up"] 10
    = Some (Throw "socket hang up", 3%nat) ∧
  (1 ≤ 3)%nat ∧ Z.of_nat 3 ≤ 10 + 1.
Proof.
  split; [reflexivity|].
  destruct (proj1 (fetch_is_bounded
                     [Normal not_finished; Normal not_finished; Throw "socket hang up"]
                     10 ltac:(lia)) (Throw "socket hang up") 3%nat eq_refl)
    as (H1 & H2 & _).
  split; [exact H1|exact H2].
Defined.

(** X20. Whatever the responses, a [done] event whose result fetch
    settles is answered with exactly one [pdf2zh:done] notification, the
    last thing sent; it says [ok: true] and carries the result exactly
    when the fetch ended in an ok response, and only otherwise is it
    preceded by one [pdf2zh:error] notification. *)
Theorem done_is_sent_exactly_once
  (jobId : value) (responses : list (Completion value)) (actions : list Action) :
  onDone jobId responses = Some actions →
  ∃ r n,
    fetchResultWithRetry responses DEFAULT_RETRIES = Some (r, n) ∧
    sent_on "pdf2zh:done" actions =
      [VObj (("jobId", jobId) :: ("ok", VBool (succeeded r)) ::
             match r with
             | Normal result => if succeeded r then [("result", result)] else []
             | Throw _ => []
             end)] ∧
    last actions = Some (Send "pdf2zh:done"
                           (VObj (("jobId", jobId) :: ("ok", VBool (succeeded r)) ::
                                  match r with
                                  | Normal result =>
                                      if succeeded r then [("result", result)] else []
                                  | Throw _ => []
                                  end))) ∧
    length (sent_on "pdf2zh:error" actions) = (if succeeded r then 0 else 1)%nat ∧
    sent_on "pdf2zh:progress" actions = [].
Proof.
  unfold onDone. destruct (fetchResultWithRetry responses DEFAULT_RETRIES) as [[r n]|]; [|done].
  intros [= <-]. exists r, n. split; [done|].
  destruct r as [result|message]; cbn [onResult succeeded].
  - by destruct (truthy result && truthy (prop result "ok")).
  - done.
Qed.

Lemma done_is_sent_exactly_once_witness :
  ∃ r n,
    fetchResultWithRetry [Normal (VObj [])] DEFAULT_RETRIES = Some (r, n) ∧
    succeeded r = false.
Proof.
  destruct (done_is_sent_exactly_once (VStr "j1") [Normal (VObj [])] _ eq_refl)
    as (r & n & E & _).
  exists r, n. split; [exact E|]. vm_compute in E. by injection E as <- _.
Defined.

Lemma chunking_does_not_matter_witness :
  onChunks JS.JSON_parse (VStr "j1") ""
    [take 7 progress_frame; take 30 (drop 7 progress_frame); drop 37 progress_frame]
  = ("", [progress_notification]).
Proof.
  rewrite (chunking_does_not_matter JS.JSON_parse (VStr "j1") "");
    [vm_compute; reflexivity | | reflexivity].
  repeat constructor.
Defined.

Lemma lines_are_handled_in_order_witness :
  drain JS.JSON_parse 80 (VStr "j1")
    (unlines [": ping"; ("data: " ++ progress_text)%string; "data: {"]) =
    ("", [progress_notification]).
Proof.
  rewrite (drain_fuel JS.JSON_parse (VStr "j1") 80
             (String.length (unlines [": ping"; ("data: " ++ progress_text)%string; "data: {"])))
    by (vm_compute; lia).
  rewrite (lines_are_handled_in_order JS.JSON_parse (VStr "j1")); [vm_compute; reflexivity|].
  repeat constructor.
Defined.

End RelayMore.

(** * Further properties of the ['start-translate'] handler *)

Module IpcMore.
Import JS Ipc.

Ltac members H :=
  repeat (apply elem_of_cons in H as [H|H]; simplify_eq);
  try (by apply elem_of_nil in H).

(** X21. What the handler of ['start-translate'] does and when: the
    engine is started exactly when a file path is given; [/translate] is
    posted only after the engine start has succeeded and only for the
    services google and bing, with the path, its base name, the service
    and four threads; a progress stream is opened only for the job id of
    the response, which must be truthy, and the handler then returns that
    id; without a file path the handler sends one error notification
    with no job and returns a [null] job id. *)
Theorem start_translate_discipline
  (basename : string → string) (params : Params)
  (engine : Completion Z) (translated : Completion value) :
  let '(actions, completion) := startTranslate basename params engine translated in
  (StartEngineServer ∈ actions ↔ filePath params ≠ "") ∧
  (∀ body, PostTranslate body ∈ actions →
     (∃ port, engine = Normal port) ∧
     (service params = "google" ∨ service params = "bing") ∧
     body = VObj [("source_path", VStr (filePath params));
                  ("source_filename", VStr (basename (filePath params)));
                  ("service", VStr (service params)); ("threads", VNum 4 0)]) ∧
  (∀ jobId, OpenProgressStream jobId ∈ actions →
     truthy jobId = true ∧
     ∃ response, translated = Normal response ∧ jobId = prop response "jobId" ∧
                 completion = Normal (VObj [("jobId", jobId)])) ∧
  (filePath params = "" →
     actions = [Send "pdf2zh:error"
                  (VObj [("jobId", VNull); ("message", VStr "未选择 PDF 文件")])] ∧
     completion = Normal (VObj [("jobId", VNull)])).
Proof.
  unfold startTranslate.
  destruct (String.eqb_spec (filePath params) "") as [Hpath|Hpath].
  - cbn. split; [split; [intros H; members H|done]|].
    split; [intros body H; members H|]. split; [intros jobId H; members H|]. done.
  - destruct engine as [port|why]; cbn.
    + destruct (String.eqb_spec (service params) "google") as [Hg|Hg];
        [|destruct (String.eqb_spec (service params) "bing") as [Hb|Hb]]; cbn;
        try (destruct translated as [response|why]; cbn;
             [unfold member; destruct (nullish response) eqn:Hn; cbn;
              [|destruct (truthy (prop response "jobId")) eqn:Ht; cbn]|]);
        (split; [split; [done|intros _; by left]|]);
        (split; [intros body H; members H; eauto|]);
        (split; [intros jobId H; members H; eauto|]);
        done.
    + split; [split; [done|intros _; by left]|].
      split; [intros body H; members H|]. split; [intros jobId H; members H|]. done.
Qed.

Lemma start_translate_discipline_witness :
  startTranslate (λ _, "a.pdf") {| filePath := "/tmp/a.pdf"; service := "bing" |}
    (Normal 18080) (Normal (VObj [("jobId", VStr "j1")])) =
  ([StartEngineServer;
    PostTranslate (VObj [("source_path", VStr "/tmp/a.pdf");
                         ("source_filename", VStr "a.pdf");
                         ("service", VStr "bing"); ("threads", VNum 4 0)]);
    OpenProgressStream (VStr "j1")],
   Normal (VObj [("jobId", VStr "j1")])) ∧
  truthy (VStr "j1") = true.
Proof.
  split; [reflexivity|].
  pose proof (start_translate_discipline (λ _, "a.pdf")
                {| filePath := "/tmp/a.pdf"; service := "bing" |}
                (Normal 18080) (Normal (VObj [("jobId", VStr "j1")]))) as H.
  cbn in H. destruct H as (_ & _ & H & _).
  apply (H (VStr "j1")). repeat constructor.
Defined.

End IpcMore.

(** * Properties of the renderer *)

Module AppFacts.
Import JS Renderer App.





(** A path as Windows gives it. *)
Lemma applySelectedFile_example :
  sourceFileName (applySelectedFile "C:\docs\Paper.PDF" fresh) = "Paper.PDF" ∧
  outputFilename (applySelectedFile "C:\docs\Paper.PDF" fresh) = "Paper (双语).pdf".
Proof. split; reflexivity. Qed.

(** X23. No notification changes which job the window watches.  For the
    job that is watched, a progress notification sets the percentage and
    leaves the translating state alone, a done notification ends the
    translating state, and an error notification ends it, drops the
    result and shows its message; an error notification without a job
    id does the same whatever is watched. *)
Theorem notifications_of_the_watched_job (n : Notification) (s : UiState) :
  jobIdRef (handle n s).1 = jobIdRef s ∧ jobId (handle n s).1 = jobId s ∧
  (Renderer.truthy (carried n) = true → carried n = jobIdRef s →
   match n with
   | Progress data =>
       progressPct (handle n s).1 = pct data ∧
       isTranslating (handle n s).1 = isTranslating s
   | Done data => isTranslating (handle n s).1 = false
   | Error data =>
       isTranslating (handle n s).1 = false ∧ result (handle n s).1 = None ∧
       error (handle n s).1 = e_message data
   end) ∧
  (∀ text,
     n = Error {| e_jobId := None; e_message := text |} →
     isTranslating (handle n s).1 = false ∧ result (handle n s).1 = None ∧
     error (handle n s).1 = text).
Proof.
  destruct n as [data|data|data]; cbn [handle carried].
  - unfold onProgress. split; [by destruct (_ && _)|]. split; [by destruct (_ && _)|].
    split; [|done]. intros -> Hw. unfold same. rewrite bool_decide_eq_true_2 by done. done.
  - unfold onDone. split; [|split; [|split; [|done]]].
    + destruct (_ && _); [|done]. by destruct (ok data), (d_result data).
    + destruct (_ && _); [|done]. by destruct (ok data), (d_result data).
    + intros -> Hw. unfold same. rewrite bool_decide_eq_true_2 by done. cbn.
      by destruct (ok data), (d_result data).
  - unfold onError. split; [by destruct (_ || _)|]. split; [by destruct (_ || _)|]. split.
    + intros -> Hw. unfold same. rewrite bool_decide_eq_true_2 by done. done.
    + by intros text [= ->].
Qed.

Lemma notifications_of_the_watched_job_witness :
  isTranslating
    (handle (Error {| e_jobId := Some "j1"; e_message := "boom" |}) watching_j1).1 = false.
Proof.
  destruct (notifications_of_the_watched_job
              (Error {| e_jobId := Some "j1"; e_message := "boom" |}) watching_j1)
    as (_ & _ & H & _).
  apply (H eq_refl eq_refl).
Defined.

(** X24. One job, from the click to the result: with a file chosen,
    [start] enters the translating state with progress, status, result
    and error reset, and asks the main process to translate that file
    with the chosen service; once the reply carries job [j], a progress
    notification of [j] shows its percentage, and the done notification
    of [j] with a result shows that result under its file name, leaves
    the translating state and clears the chosen file.  With no file
    chosen [start] only alerts. *)
Theorem one_job_from_click_to_result
  (s : UiState) (path service j name base64 : string) (percent : Z) :
  selectedFilePath s = Some path → path ≠ "" → j ≠ "" →
  let clicked := start service s in
  let watching := startResolved (Some j) clicked.1 in
  let progressed :=
    (onProgress {| p_jobId := Some j; pct := percent; stage := None; message := None |}
       watching).1 in
  let finished :=
    onDone {| d_jobId := Some j; ok := true;
              d_result := Some {| r_filename := name; pdf_base64 := base64 |} |}
      progressed in
  clicked.2 = [Start path service] ∧
  isTranslating clicked.1 = true ∧ progressPct clicked.1 = 0 ∧
  result clicked.1 = None ∧ error clicked.1 = "" ∧
  progressPct progressed = percent ∧ isTranslating progressed = true ∧
  finished.2 = [] ∧
  result finished.1 = Some {| filename := name; pdfBase64 := base64 |} ∧
  outputFilename finished.1 = name ∧
  isTranslating finished.1 = false ∧ selectedFilePath finished.1 = None ∧
  (start service finished.1).2 = [Alert "请选择 PDF"] ∧
  (start service finished.1).1 = finished.1.
Proof.
  intros Hsel Hpath Hj. apply String.eqb_neq in Hpath, Hj.
  unfold start. rewrite Hsel. cbn. rewrite Hpath. cbn.
  unfold onProgress, onDone, same. cbn. rewrite Hj. cbn.
  rewrite ?bool_decide_eq_true_2 by done. cbn.
  rewrite ?bool_decide_eq_true_2 by done. cbn. by repeat split.
Qed.

Lemma one_job_from_click_to_result_witness :
  result
    (onDone {| d_jobId := Some "j1"; ok := true;
               d_result := Some {| r_filename := "x.pdf"; pdf_base64 := "JVBERi0=" |} |}
       (onProgress {| p_jobId := Some "j1"; pct := 42; stage := None; message := None |}
          (startResolved (Some "j1")
             (start "google" (applySelectedFile "/tmp/paper.pdf" fresh)).1)).1).1
  = Some {| filename := "x.pdf"; pdfBase64 := "JVBERi0=" |}.
Proof.
  apply (one_job_from_click_to_result (applySelectedFile "/tmp/paper.pdf" fresh)
           "/tmp/paper.pdf" "google" "j1" "x.pdf" "JVBERi0=" 42); done.
Defined.

End AppFacts.
